(** * run_analysis.py: a shallow embedding of the claims-analysis report

    The script loads two tables, then runs nine steps over them and writes one
    file per result.  Every step is a call into pandas, numpy or scipy; the
    definitions below embed what those calls compute on the loaded columns,
    module by module, and the last module puts the steps in program order
    with the files they write.

    Numbers.  A loaded numeric cell is a finite binary64 value or NaN.  Every
    finite binary64 value is a rational, so a cell is an [option Q] with [None]
    for NaN.  Counting, comparison and binning are exact on such values and are
    modelled as they run.  Derived statistics (ratios, percentages, sums of
    squares) are modelled by their exact rational value; the square roots of
    the association and Welch steps are taken in [R].  Closed computations
    (the expected-value table, the rendering of a ratio of two counts) are run
    in binary64 itself with the kernel's primitive floats.  The distribution
    functions behind the p-values are not modelled: a p-value is kept as the
    call that computes it.

    Exceptions.  A library call that raises is a [result] with the exception on
    the left; the script handles none, so the first one ends the run. *)

From Stdlib Require Import ZArith QArith Qabs Qround Lia Psatz List String Ascii Bool.
From Stdlib Require Import DecimalString.
From Stdlib Require Import PrimFloat FloatOps SpecFloat Uint63.
From Stdlib Require Import Reals Qreals Sorted Permutation.
Import ListNotations.

Set Warnings "-inexact-float".

(** ** The loaded tables *)

(** One numeric cell: [Some q] for a finite value, [None] for NaN. *)
Definition cell : Type := option Q.

(** A Python exception that ends a step. *)
Inductive raised : Type :=
| ValueError (msg : string)
| TypeError (msg : string)
| IndexError (msg : string)
| FileNotFoundError (msg : string).

(** The outcome of a library call: a value, or the exception it raises. *)
Definition result (A : Type) : Type := (raised + A)%type.

Definition bind {A B : Type} (r : result A) (k : A -> result B) : result B :=
  match r with
  | inl e => inl e
  | inr a => k a
  end.

Notation "x <- r ;; k" := (bind r (fun x => k))
  (at level 61, r at next level, right associativity).

(** What [pd.read_csv] leaves in a cell of the Department column: the text of
    the cell; a number, when every cell of the column that is not empty reads
    as one; NaN for an empty cell. *)
Inductive label : Type :=
| Text (s : string)
| Number (q : Q)
| Blank.

Coercion Text : string >-> label.
Bind Scope string_scope with label.

(** A row of claims.csv, with the columns the script reads. *)
Record claim : Type := mkClaim {
  ClaimAmount : cell;
  Age : cell;
  IsSmoker : cell;
  Denied : cell;
  Department : label
}.

(** [claims["ClaimAmount"]] *)
Definition amounts (claims : list claim) : list cell := map ClaimAmount claims.

(** [Series.dropna()] *)
Fixpoint dropna (col : list cell) : list Q :=
  match col with
  | [] => []
  | Some q :: rest => q :: dropna rest
  | None :: rest => dropna rest
  end.

(** Sums of a column, the number of its entries as a rational, and its
    arithmetic mean. *)
Definition Qsum (l : list Q) : Q := fold_right Qplus 0%Q l.

Definition Zsum (l : list Z) : Z := fold_right Z.add 0%Z l.

Definition count_Q {A : Type} (l : list A) : Q := inject_Z (Z.of_nat (List.length l)).

Definition mean (l : list Q) : Q := (Qsum l / count_Q l)%Q.

Definition Qgtb (x y : Q) : bool := negb (Qle_bool x y).
Definition Qltb (x y : Q) : bool := negb (Qle_bool y x).

(** ** Rendering binary64 values: Python's [format(x, ".{d}f")]

    The exact value of the float is rounded to [d] decimals, ties to even. *)
Module Render.

Open Scope Z_scope.

(** Round to the nearest integer, ties to even. *)
Definition rint (q : Q) : Z :=
  let n := Qnum q in
  let d := Zpos (Qden q) in
  let fl := n / d in
  match (2 * (n mod d) ?= d) with
  | Lt => fl
  | Gt => fl + 1
  | Eq => if Z.even fl then fl else fl + 1
  end.

Definition digits (z : Z) : string := NilZero.string_of_uint (N.to_uint (Z.to_N z)).

Fixpoint zeros (n : nat) : string :=
  match n with O => EmptyString | S k => String "0" (zeros k) end.

Definition zero_pad (width : nat) (s : string) : string :=
  (zeros (width - String.length s) ++ s)%string.

(** The magnitude [m * 2^e] of a finite float. *)
Definition sf_magnitude (m : positive) (e : Z) : Q :=
  match e with
  | Zneg p => Qmake (Zpos m) (2 ^ p)
  | _ => inject_Z (Zpos m * 2 ^ e)
  end.

Definition sign_text (s : bool) : string := if s then "-"%string else EmptyString.

(** [format(x, ".{d}f")] for [d >= 1]. *)
Definition format_f (d : nat) (x : float) : string :=
  match Prim2SF x with
  | S754_nan => "nan"%string
  | S754_infinity s => (sign_text s ++ "inf")%string
  | S754_zero s => (sign_text s ++ "0." ++ zeros d)%string
  | S754_finite s m e =>
      let unit := 10 ^ Z.of_nat d in
      let scaled := rint (Qmult (sf_magnitude m e) (inject_Z unit)) in
      (sign_text s ++ digits (scaled / unit) ++ "." ++
       zero_pad d (digits (scaled mod unit)))%string
  end.

(** An integer below 2^63 as a float (exact below 2^53). *)
Definition float_of_Z (z : Z) : float := PrimFloat.of_uint63 (Uint63.of_Z z).

End Render.

(** ** Step 8: empirical probability *)
Module Probability.

Open Scope Z_scope.

(** One cell of [claims["ClaimAmount"] > 2500]: a comparison with NaN is
    [False]. *)
Definition cell_gt (threshold : Q) (c : cell) : bool :=
  match c with
  | Some q => Qgtb q threshold
  | None => false
  end.

(** [claims["ClaimAmount"] > 2500] *)
Definition gt_mask (threshold : Q) (col : list cell) : list bool :=
  map (cell_gt threshold) col.

(** [nanops.nanmean] on a boolean column: the sum of the column as numbers,
    the number of its entries (a boolean column has no missing entry), and
    [the_sum / count if count > 0 else nan]. *)
Definition the_sum (mask : list bool) : Z :=
  fold_left (fun acc (b : bool) => acc + (if b then 1 else 0)) mask 0.

Definition count (mask : list bool) : Z := Z.of_nat (List.length mask).

Definition nanmean (mask : list bool) : option Q :=
  if 0 <? count mask
  then Some (inject_Z (the_sum mask) / inject_Z (count mask))%Q
  else None.

(** [p_gt_2500 = (claims["ClaimAmount"] > 2500).mean()] *)
Definition p_gt_2500 (claims : list claim) : option Q :=
  nanmean (gt_mask 2500 (amounts claims)).

(** The same mean as pandas holds it, a binary64 quotient of two counts. *)
Definition nanmean_float (mask : list bool) : float :=
  if 0 <? count mask
  then PrimFloat.div (Render.float_of_Z (the_sum mask)) (Render.float_of_Z (count mask))
  else PrimFloat.nan.

(** The numeric field of probability_demo.txt: [f"{p_gt_2500:.4f}"]. *)
Definition p_gt_2500_text (claims : list claim) : string :=
  Render.format_f 4 (nanmean_float (gt_mask 2500 (amounts claims))).

(** What the claims count: rows whose amount is above the threshold, rows in
    all, and the non-missing amounts above the threshold. *)
Definition exceeds (threshold : Q) (r : claim) : bool :=
  match ClaimAmount r with
  | Some q => Qgtb q threshold
  | None => false
  end.

Definition rows_above (threshold : Q) (claims : list claim) : nat :=
  List.length (filter (exceeds threshold) claims).

Definition values_above (threshold : Q) (claims : list claim) : nat :=
  List.length (filter (fun q => Qgtb q threshold) (dropna (amounts claims))).

Definition row_of_amount (q : Q) : claim :=
  mkClaim (Some q) (Some 40%Q) (Some 0%Q) (Some 0%Q) "Cardiology".

Definition missing_amount_row : claim :=
  mkClaim None (Some 40%Q) (Some 0%Q) (Some 0%Q) "Cardiology".

(** Three claims, the second without an amount. *)
Definition with_missing : list claim :=
  [row_of_amount 3000; missing_amount_row; row_of_amount 100].

(** ClaimAmount = [100, 500, 900, 2600, 5000] *)
Definition scenario : list claim :=
  map row_of_amount [100%Q; 500%Q; 900%Q; 2600%Q; 5000%Q].

End Probability.

(** ** Step 7: expected value, in binary64 as the script computes it *)
Module ExpectedValue.

Open Scope float_scope.

Record category : Type := mkCategory {
  Type_ : string;
  Prob : float;
  AvgCost : Z
}.

(** [cats = pd.DataFrame({"Type": ..., "Prob": ..., "AvgCost": ...})] *)
Definition cats : list category :=
  [ mkCategory "Routine" 0.62 1000;
    mkCategory "Specialist" 0.28 3000;
    mkCategory "Emergency" 0.10 10000 ].

(** One entry of [cats["Prob"] * cats["AvgCost"]]: the integer cost is
    converted to binary64 and multiplied. *)
Definition Contribution (c : category) : float :=
  Prob c * Render.float_of_Z (AvgCost c).

(** [Series.sum()] of a float column without missing entries, left to right. *)
Definition sum (col : list float) : float := fold_left PrimFloat.add col 0.

(** [ev = cats["Contribution"].sum()] *)
Definition ev : float := sum (map Contribution cats).

(** [f"Expected Claim Cost = {ev:.2f}\n"] *)
Definition newline : string := String (ascii_of_nat 10) EmptyString.

Definition expected_value_result_txt : string :=
  ("Expected Claim Cost = " ++ Render.format_f 2 ev ++ newline)%string.

End ExpectedValue.

(** ** Step 2: frequency distribution *)
Module Frequency.

Open Scope Q_scope.

(** [Series.max()]: the largest non-missing value, NaN when there is none. *)
Definition Qmax (x y : Q) : Q := if Qle_bool x y then y else x.

Definition max_ (col : list cell) : cell :=
  match dropna col with
  | [] => None
  | q :: rest => Some (fold_left Qmax rest q)
  end.

(** [np.arange(start, stop, step)] for a positive step: the values
    [start + i*step] for [0 <= i < ceil((stop - start)/step)]. *)
Definition arange (start stop step : Q) : list Q :=
  map (fun i => start + inject_Z (Z.of_nat i) * step)
      (seq 0 (Z.to_nat (Qceiling ((stop - start) / step)))).

(** [bins = np.arange(0, claims["ClaimAmount"].max() + 401, 400)]; a NaN stop
    makes [np.arange] raise.  The sum is the exact one: it is the script's
    binary64 sum whenever that sum is not rounded, as for every integer
    maximum below 2^52. *)
Definition bins (claims : list claim) : result (list Q) :=
  match max_ (amounts claims) with
  | None => inl (ValueError "arange: cannot compute length")
  | Some m => inr (arange 0 (m + 401) 400)
  end.

(** [int(x)] of a non-negative number, as text. *)
Definition int_text (q : Q) : string := Render.digits (Qfloor q).

(** [labels = [f"{int(bins[i])}-{int(bins[i+1]-1)}" for i in range(len(bins)-1)]] *)
Fixpoint labels (edges : list Q) : list string :=
  match edges with
  | lo :: (hi :: _) as rest =>
      (int_text lo ++ "-" ++ int_text (hi - 1))%string :: labels rest
  | _ => []
  end.

(** [bins.searchsorted(x, side="left")]: the first index whose edge is not
    below [x]. *)
Fixpoint searchsorted_left (edges : list Q) (x : Q) : nat :=
  match edges with
  | [] => O
  | e :: rest => if Qltb e x then S (searchsorted_left rest x) else O
  end.

(** One value through [pd.cut(..., right=True, include_lowest=True)], for a
    non-empty list of edges: the index of its bin, or [None] when the value is
    missing or outside every bin.
      ids = bins.searchsorted(x, side="left")
      ids[x == bins[0]] = 1
      na_mask = isna(x) | (ids == len(bins)) | (ids == 0) *)
Definition cut_one (edges : list Q) (c : cell) : option nat :=
  match c, edges with
  | Some x, lowest :: _ =>
      let ids := if Qeq_bool x lowest then 1%nat else searchsorted_left edges x in
      if (ids =? List.length edges)%nat || (ids =? 0)%nat then None
      else Some (ids - 1)%nat
  | _, _ => None
  end.

(** [cut = pd.cut(claims["ClaimAmount"], bins=bins, labels=labels, right=True,
    include_lowest=True)], as bin indices; [bins[0]] of an empty array raises. *)
Definition cut (edges : list Q) (col : list cell) : result (list (option nat)) :=
  match edges with
  | [] => inl (IndexError "index 0 is out of bounds for axis 0 with size 0")
  | _ => inr (map (cut_one edges) col)
  end.

(** [freq = cut.value_counts().sort_index()]: one count per category, in bin
    order, zero counts included. *)
Definition in_bin (i : nat) (c : option nat) : bool :=
  match c with
  | Some j => (i =? j)%nat
  | None => false
  end.

Definition freq (nbins : nat) (codes : list (option nat)) : list Z :=
  map (fun i => Z.of_nat (List.length (filter (in_bin i) codes))) (seq 0 nbins).

(** [Series.round(2)] on one cell: [rint(x * 100) / 100], a whole number of
    hundredths.  The value rounded is the exact one; the script rounds its
    binary64 value, which at an exact tie such as 14.375 may lie on the other
    side of the tie and give the neighbouring hundredth. *)
Definition round2 (q : Q) : Q := inject_Z (Render.rint (q * 100)) / 100.

Definition round2_cell (c : cell) : cell := option_map round2 c.

(** [freq_df["Frequency"] / freq_df["Frequency"].sum() * 100]: true division
    of integers, [0/0] being NaN. *)
Definition percent (total f : Z) : cell :=
  if (total =? 0)%Z then None
  else Some (inject_Z f / inject_Z total * 100).

(** [Series.cumsum()]: a missing entry stays missing and is skipped by the
    running sum. *)
Fixpoint cumsum_from (acc : Q) (col : list cell) : list cell :=
  match col with
  | [] => []
  | Some q :: rest => Some (acc + q) :: cumsum_from (acc + q) rest
  | None :: rest => None :: cumsum_from acc rest
  end.

Definition cumsum (col : list cell) : list cell := cumsum_from 0 col.

(** The four columns of [freq_df]. *)
Record freq_table : Type := mkFreq {
  Range : list string;
  Frequency : list Z;
  Relative : list cell;
  Cumulative : list cell
}.

Definition freq_df (claims : list claim) : result freq_table :=
  edges <- bins claims ;;
  codes <- cut edges (amounts claims) ;;
  let f := freq (List.length edges - 1) codes in
  let rel := map (fun x => round2_cell (percent (Zsum f) x)) f in
  inr (mkFreq (labels edges) f rel (map round2_cell (cumsum rel))).

(** The first multiple of 400 strictly greater than [m]. *)
Definition first_multiple_above (m : Q) : Q :=
  inject_Z (400 * (Qfloor (m / 400) + 1)).

(** Edges in ascending order. *)
Definition ascending (edges : list Q) : Prop :=
  forall i j, (i <= j)%nat -> (j < List.length edges)%nat ->
              nth i edges 0 <= nth j edges 0.

(** A code that names one of the first [n] bins. *)
Definition is_code (n : nat) (c : option nat) : bool :=
  match c with
  | Some j => (j <? n)%nat
  | None => false
  end.

(** A number of hundredths, and the running sums of a column of them. *)
Definition cents (z : Z) : Q := inject_Z z / 100.

Fixpoint running (a : Z) (rs : list Z) : list Z :=
  match rs with
  | [] => []
  | r :: rest => (a + r)%Z :: running (a + r) rest
  end.

(** The edges 0, 400, ..., 400*k. *)
Definition edges_through (k : nat) : list Q :=
  map (fun i => inject_Z (400 * Z.of_nat i)) (seq 0 (S k)).

(** A single claim of -500. *)
Definition below_zero : list claim :=
  [mkClaim (Some (-500)) (Some 40) (Some 0) (Some 0) "Cardiology"].


End Frequency.

(** ** Step 5: correlation and covariance *)
Module Association.

Open Scope Q_scope.

(** The columns of [numeric = claims[["Age","ClaimAmount","IsSmoker","Denied"]]],
    in that order. *)
Inductive field : Type := FAge | FClaimAmount | FIsSmoker | FDenied.

Definition position (f : field) : nat :=
  match f with
  | FAge => 0
  | FClaimAmount => 1
  | FIsSmoker => 2
  | FDenied => 3
  end.

Definition column (f : field) (claims : list claim) : list cell :=
  match f with
  | FAge => map Age claims
  | FClaimAmount => map ClaimAmount claims
  | FIsSmoker => map IsSmoker claims
  | FDenied => map Denied claims
  end.

(** The rows on which both columns are present ([mask[i, xi] and mask[i, yi]]). *)
Fixpoint complete_pairs (xs ys : list cell) : list (Q * Q) :=
  match xs, ys with
  | Some x :: xs', Some y :: ys' => (x, y) :: complete_pairs xs' ys'
  | _ :: xs', _ :: ys' => complete_pairs xs' ys'
  | _, _ => []
  end.

(** Sum of the products of deviations from the means. *)
Definition sum_dev (xs ys : list Q) : Q :=
  Qsum (map (fun p => (fst p - mean xs) * (snd p - mean ys)) (combine xs ys)).

(** What pandas' [nancorr] accumulates for one pair of columns, by Welford's
    updates: the number of complete rows, the two sums of squared deviations
    from the means and the sum of cross products, here by their exact
    values.  The script holds them in binary64, rounded at every update; a
    matrix entry of the model is the value that the script's entry
    approximates, and where an exact sum is zero for a constant column the
    script's sum is zero as well. *)
Record moments : Type := mkMoments {
  nobs : nat;
  ssqdm_x : Q;
  ssqdm_y : Q;
  covxy : Q
}.

Definition pair_moments (xs ys : list cell) : moments :=
  let ps := complete_pairs xs ys in
  let vx := map fst ps in
  let vy := map snd ps in
  mkMoments (List.length ps) (sum_dev vx vx) (sum_dev vy vy) (sum_dev vx vy).

(** [minp = 1] for both [corr()] and [cov()]. *)
Definition minpv : nat := 1.

(** One entry of [cov()]: [covxy / (nobs - 1)], NaN when [nobs < minpv] or the
    divisor is zero ([np.cov], which pandas calls on a table without missing
    cells, divides by the same [nobs - 1]). *)
Definition cov_pair (xs ys : list cell) : option Q :=
  let m := pair_moments xs ys in
  if (nobs m <? minpv)%nat then None
  else if (nobs m - 1 =? 0)%nat then None
  else Some (covxy m / inject_Z (Z.of_nat (nobs m - 1))).

(** One entry of [corr()]: [covxy / sqrt(ssqdm_x * ssqdm_y)], NaN when
    [nobs < minpv] or the divisor is zero.  The square root is real. *)
Definition corr_pair (xs ys : list cell) : option R :=
  let m := pair_moments xs ys in
  if (nobs m <? minpv)%nat then None
  else if Qeq_bool (ssqdm_x m * ssqdm_y m) 0 then None
  else Some (Q2R (covxy m) / sqrt (Q2R (ssqdm_x m * ssqdm_y m)))%R.

(** [nancorr] computes the entries with [yi <= xi] and stores each at
    [result[xi, yi]] and [result[yi, xi]]. *)
Definition entry {A : Type} (pair : list cell -> list cell -> A)
    (claims : list claim) (f g : field) : A :=
  if (position g <=? position f)%nat
  then pair (column f claims) (column g claims)
  else pair (column g claims) (column f claims).

(** [corr = numeric.corr()] and [cov = numeric.cov()], entry by entry. *)
Definition corr (claims : list claim) (f g : field) : option R :=
  entry corr_pair claims f g.

Definition cov (claims : list claim) (f g : field) : option Q :=
  entry cov_pair claims f g.

(** The cell of one row in a column of [numeric]. *)
Definition cell_at (f : field) (r : claim) : cell :=
  match f with
  | FAge => Age r
  | FClaimAmount => ClaimAmount r
  | FIsSmoker => IsSmoker r
  | FDenied => Denied r
  end.


(** The unbiased sample variance of the present values. *)
Definition variance (l : list Q) : Q :=
  sum_dev l l / inject_Z (Z.of_nat (List.length l - 1)).

(** Two claims that were never denied. *)
Definition never_denied : list claim :=
  [ mkClaim (Some 1200) (Some 30) (Some 1) (Some 0) "Cardiology";
    mkClaim (Some 800) (Some 52) (Some 0) (Some 0) "Oncology" ].

(** A single claim. *)
Definition single_claim : list claim :=
  [ mkClaim (Some 1200) (Some 30) (Some 1) (Some 0) "Cardiology" ].

(** A claim whose age was not recorded. *)
Definition ageless : claim :=
  mkClaim (Some 950) None (Some 0) (Some 1) "Oncology".

End Association.

(** ** Step 6: hypothesis tests *)
Module Tests.

Open Scope Q_scope.

(** The value of a binary64 statistic: finite (by its exact value), infinite
    or NaN. *)
Inductive stat (A : Type) : Type :=
| Finite (x : A)
| Infinite (negative : bool)
| NaN.

Arguments Finite {A} x.
Arguments Infinite {A} negative.
Arguments NaN {A}.

(** One cell of [claims[col] == v]: NaN equals nothing. *)
Definition cell_eq (v : Q) (c : cell) : bool :=
  match c with
  | Some q => Qeq_bool q v
  | None => false
  end.

Definition is_missing (c : cell) : bool :=
  match c with
  | Some _ => false
  | None => true
  end.

(** Sum of squared deviations from [c]. *)
Definition ss_about (c : Q) (l : list Q) : Q :=
  Qsum (map (fun x => (x - c) * (x - c)) l).

(** *** a) Welch t-test, smokers against non-smokers *)

(** [sm = claims.loc[claims["IsSmoker"]==1, "ClaimAmount"]] *)
Definition sm (claims : list claim) : list cell :=
  map ClaimAmount (filter (fun r => cell_eq 1 (IsSmoker r)) claims).

(** [ns = claims.loc[claims["IsSmoker"]==0, "ClaimAmount"]] *)
Definition ns (claims : list claim) : list cell :=
  map ClaimAmount (filter (fun r => cell_eq 0 (IsSmoker r)) claims).

(** The sample variance with [ddof=1]; a single observation gives [0 * inf],
    which is NaN. *)
Definition var_ddof1 (l : list Q) : option Q :=
  if (List.length l - 1 =? 0)%nat then None
  else Some (ss_about (mean l) l / inject_Z (Z.of_nat (List.length l - 1))).

(** [_unequal_var_ttest_denom]: the Welch-Satterthwaite degrees of freedom,
    with an undefined ratio replaced by 1. *)
Definition welch_df (vn1 vn2 : Q) (n1 n2 : nat) : Q :=
  let den := vn1 * vn1 / inject_Z (Z.of_nat (n1 - 1))
             + vn2 * vn2 / inject_Z (Z.of_nat (n2 - 1)) in
  if Qeq_bool den 0 then 1 else (vn1 + vn2) * (vn1 + vn2) / den.

(** A p-value.  The distribution functions of scipy.special are not part of
    the model: a p-value is kept as the call that computes it, with the
    arguments of that call. *)
Inductive pvalue : Type :=
| p_nan
| p_exactly (r : R)
| p_student_two_sided (df : Q) (t : R)
| p_f_survival (dfn dfd : Z) (f : Q)
| p_chi2_survival (df : Z) (x : Q).

(** [stats.ttest_ind(a, b, equal_var=False)]: statistic and two-sided p-value,
    [2 * special.stdtr(df, -|t|)].  An empty sample, or a NaN in either sample,
    gives NaN for both. *)
Definition ttest_ind (a b : list cell) : stat R * pvalue :=
  match a, b with
  | [], _ | _, [] => (NaN, p_nan)
  | _, _ =>
      if existsb is_missing a || existsb is_missing b then (NaN, p_nan)
      else
        let xa := dropna a in
        let xb := dropna b in
        match var_ddof1 xa, var_ddof1 xb with
        | Some v1, Some v2 =>
            let vn1 := v1 / count_Q xa in
            let vn2 := v2 / count_Q xb in
            let df := welch_df vn1 vn2 (List.length xa) (List.length xb) in
            let d := mean xa - mean xb in
            if Qeq_bool (vn1 + vn2) 0 then
              if Qeq_bool d 0 then (NaN, p_nan)
              else (Infinite (Qltb d 0), p_exactly 0%R)
            else
              let t := (Q2R d / sqrt (Q2R (vn1 + vn2)))%R in
              (Finite t, p_student_two_sided df t)
        | _, _ => (NaN, p_nan)
        end
  end.

(** [t_stat, p_val = stats.ttest_ind(sm, ns, equal_var=False)] *)
Definition t_stat (claims : list claim) : stat R :=
  fst (ttest_ind (sm claims) (ns claims)).

Definition p_val (claims : list claim) : pvalue :=
  snd (ttest_ind (sm claims) (ns claims)).

(** *** b) ANOVA by department *)

(** Two cells that pandas' hash table takes for the same value in
    [Series.unique()]: equal texts, equal numbers, and NaN with NaN. *)
Definition same_label (a b : label) : bool :=
  match a, b with
  | Text s, Text t => String.eqb s t
  | Number p, Number q => Qeq_bool p q
  | Blank, Blank => true
  | _, _ => false
  end.

(** [Series.unique()]: the distinct values in order of first appearance. *)
Fixpoint unique (l : list label) : list label :=
  match l with
  | [] => []
  | x :: rest => x :: filter (fun y => negb (same_label x y)) (unique rest)
  end.

(** Python's [a < b] where it is defined: texts by their characters, numbers
    by their value, and nothing is below or above NaN. *)
Definition less (a b : label) : bool :=
  match a, b with
  | Text s, Text t => String.ltb s t
  | Number p, Number q => Qltb p q
  | _, _ => false
  end.

Definition is_text (d : label) : bool :=
  match d with
  | Text _ => true
  | _ => false
  end.

Definition is_blank (d : label) : bool :=
  match d with
  | Blank => true
  | _ => false
  end.

Definition type_name (d : label) : string :=
  if is_text d then "str" else "float".

(** The first element of another type than text, or than number. *)
Fixpoint first_of_other_type (text : bool) (l : list label) : option label :=
  match l with
  | [] => None
  | x :: rest =>
      if Bool.eqb (is_text x) text then first_of_other_type text rest else Some x
  end.

(** The message of the TypeError that [a < b] raises between a text and a
    number. *)
Definition unorderable (a b : label) : string :=
  ("'<' not supported between instances of '" ++ type_name a ++ "' and '"
   ++ type_name b ++ "'")%string.

(** The run with which CPython's [list.sort] starts: the longest prefix that
    never descends, or that descends strictly; the latter is reversed. *)
Fixpoint run_length (descending : bool) (previous : label) (l : list label) : nat :=
  match l with
  | [] => 0
  | x :: rest =>
      if Bool.eqb (less x previous) descending
      then S (run_length descending x rest)
      else 0
  end.

Definition count_run (l : list label) : nat * bool :=
  match l with
  | [] => (0%nat, false)
  | [x] => (1%nat, false)
  | x :: (y :: rest) =>
      (S (S (run_length (less y x) y rest)), less y x)
  end.

(** [binarysort]: the place of [pivot] in the sorted part, by bisection. *)
Fixpoint bisect (steps : nat) (pivot : label) (sorted_part : list label)
    (l r : nat) : nat :=
  match steps with
  | O => l
  | S steps' =>
      if (l <? r)%nat then
        let p := (l + (r - l) / 2)%nat in
        if less pivot (nth p sorted_part Blank)
        then bisect steps' pivot sorted_part l p
        else bisect steps' pivot sorted_part (S p) r
      else l
  end.

Definition binary_insert (sorted_part : list label) (pivot : label) : list label :=
  let place := bisect (List.length sorted_part) pivot sorted_part 0
                      (List.length sorted_part) in
  (firstn place sorted_part ++ pivot :: skipn place sorted_part)%list.

Definition binarysort (l : list label) : list label :=
  let (n, descending) := count_run l in
  let run := if descending then rev (firstn n l) else firstn n l in
  fold_left binary_insert (skipn n l) run.

(** [sorted(...)]: the list in ascending order of [<].  Texts and numbers
    cannot be compared: the sort raises at the first element whose type
    differs from the type of the elements before it, which it compares with
    one of them.  Otherwise the list is sorted as CPython sorts a list of
    fewer than 64 elements, one run extended by binary insertion; a longer
    list goes through merges as well, which give the same list unless NaN
    stands among the numbers, every comparison with NaN being false. *)
Definition sorted (l : list label) : result (list label) :=
  match l with
  | [] => inr []
  | first :: rest =>
      match first_of_other_type (is_text first) rest with
      | Some other => inl (TypeError (unorderable other first))
      | None => inr (binarysort l)
      end
  end.

(** The order of [sorted] on texts and on numbers. *)
Definition le_label (a b : label) : Prop :=
  match a, b with
  | Text s, Text t => String.leb s t = true
  | Number p, Number q => p <= q
  | _, _ => False
  end.

(** [dept_names = sorted(claims["Department"].unique())] *)
Definition dept_names (claims : list claim) : result (list label) :=
  sorted (unique (map Department claims)).

(** [claims["Department"]==d] on one row: NaN equals nothing, itself
    included. *)
Definition of_department (d : label) (r : claim) : bool :=
  match Department r, d with
  | Text s, Text t => String.eqb s t
  | Number p, Number q => Qeq_bool p q
  | _, _ => false
  end.

(** [[claims.loc[claims["Department"]==d, "ClaimAmount"] for d in dept_names]] *)
Definition by_department (names : list label) (claims : list claim) : list (list cell) :=
  map (fun d => map ClaimAmount (filter (of_department d) claims)) names.

(** [groups], for the names that line 57 has sorted; when the sort raised the
    script has ended before this line. *)
Definition groups (claims : list claim) : result (list (list cell)) :=
  names <- dept_names claims ;;
  inr (by_department names claims).

(** The rows of any of several departments. *)
Definition among (names : list label) (r : claim) : bool :=
  existsb (fun d => of_department d r) names.

Definition square (q : Q) : Q := q * q.

(** [f"at least two inputs are required; got {len(samples)}."] *)
Definition too_few_inputs (n : nat) : string :=
  ("at least two inputs are required; got " ++ Render.digits (Z.of_nat n) ++ ".")%string.

(** [stats.f_oneway] on the unpacked samples.  Fewer than two samples raise; a sample of
    length 0, or samples all of length 1, give NaN; otherwise
    [F = (ssbn / dfbn) / (sswn / dfwn)] with the division of binary64, and the
    p-value is [special.fdtrc(dfbn, dfwn, F)]. *)
Definition f_oneway (samples : list (list cell)) : result (stat Q * pvalue) :=
  if (List.length samples <? 2)%nat
  then inl (TypeError (too_few_inputs (List.length samples)))
  else if existsb (fun s => (List.length s =? 0)%nat) samples then inr (NaN, p_nan)
  else if forallb (fun s => (List.length s =? 1)%nat) samples then inr (NaN, p_nan)
  else if existsb (existsb is_missing) samples then inr (NaN, p_nan)
  else
    let data := map dropna samples in
    let alldata := List.concat data in
    let offset := mean alldata in
    let normalized_ss := square (Qsum (map (fun x => x - offset) alldata)) / count_Q alldata in
    let sstot := ss_about offset alldata - normalized_ss in
    let ssbn := Qsum (map (fun s => square (Qsum (map (fun x => x - offset) s)) / count_Q s) data)
                - normalized_ss in
    let sswn := sstot - ssbn in
    let dfbn := (Z.of_nat (List.length samples) - 1)%Z in
    let dfwn := (Z.of_nat (List.length alldata) - Z.of_nat (List.length samples))%Z in
    let msb := ssbn / inject_Z dfbn in
    let msw := sswn / inject_Z dfwn in
    if Qeq_bool msw 0 then
      if Qeq_bool msb 0 then inr (NaN, p_nan)
      else inr (Infinite (Qltb msb 0), p_exactly 0%R)
    else inr (Finite (msb / msw), p_f_survival dfbn dfwn (msb / msw)).

(** [f_stat, p_anova = stats.f_oneway] applied to the unpacked [groups] *)
Definition anova (claims : list claim) : result (stat Q * pvalue) :=
  samples <- groups claims ;;
  f_oneway samples.

(** *** c) Chi-square test of Denied against IsSmoker *)

(** The distinct values of a numeric column, ascending: the labels of one axis
    of [pd.crosstab]. *)
Fixpoint uniqueQ (l : list Q) : list Q :=
  match l with
  | [] => []
  | x :: rest => x :: filter (fun y => negb (Qeq_bool x y)) (uniqueQ rest)
  end.

Fixpoint insertQ (x : Q) (l : list Q) : list Q :=
  match l with
  | [] => [x]
  | y :: rest => if Qle_bool x y then x :: l else y :: insertQ x rest
  end.

Definition levels (l : list Q) : list Q := fold_right insertQ [] (uniqueQ l).

(** The rows that [pd.crosstab] counts: both cells present. *)
Definition crossed (claims : list claim) : list (Q * Q) :=
  Association.complete_pairs (map Denied claims) (map IsSmoker claims).

(** [cont = pd.crosstab(claims["Denied"], claims["IsSmoker"])]: one row per
    Denied value, one column per IsSmoker value. *)
Definition cont (claims : list claim) : list (list Z) :=
  let rows := crossed claims in
  map (fun d =>
         map (fun s =>
                Z.of_nat (List.length
                  (filter (fun p => Qeq_bool (fst p) d && Qeq_bool (snd p) s) rows)))
             (levels (map snd rows)))
      (levels (map fst rows)).

Definition nrows (t : list (list Z)) : nat := List.length t.

Definition ncols (t : list (list Z)) : nat := List.length (hd [] t).

Definition row_totals (t : list (list Z)) : list Z := map Zsum t.

Definition col_totals (t : list (list Z)) : list Z :=
  map (fun j => Zsum (map (fun row => nth j row 0%Z) t)) (seq 0 (ncols t)).

Definition grand_total (t : list (list Z)) : Z := Zsum (row_totals t).

(** [expected_freq(observed)]: row total times column total over the grand
    total. *)
Definition expected_freq (t : list (list Z)) : list (list Q) :=
  map (fun rt => map (fun ct => inject_Z rt * inject_Z ct / inject_Z (grand_total t))
                     (col_totals t))
      (row_totals t).

(** [dof = expected.size - sum(expected.shape) + expected.ndim - 1] *)
Definition degrees_of_freedom (t : list (list Z)) : Z :=
  (Z.of_nat (nrows t * ncols t) - (Z.of_nat (nrows t) + Z.of_nat (ncols t)) + 2 - 1)%Z.

(** Yates' correction of one observed count: moved towards the expected count
    by [min(0.5, |expected - observed|)]. *)
Definition yates (o e : Q) : Q :=
  let diff := e - o in
  let magnitude := if Qle_bool (1 # 2) (Qabs diff) then 1 # 2 else Qabs diff in
  let direction := if Qltb 0 diff then 1 else if Qltb diff 0 then - (1) else 0 in
  o + magnitude * direction.

(** Pearson's statistic: the sum of [(observed - expected)^2 / expected]. *)
Definition pearson (observed expected : list (list Q)) : Q :=
  Qsum (map (fun oe => square (fst oe - snd oe) / snd oe)
            (combine (List.concat observed) (List.concat expected))).

Record chi2_result : Type := mkChi2 {
  chi2 : stat Q;
  p_chi : pvalue;
  dof : Z;
  exp : list (list Q)
}.

(** [stats.chi2_contingency(observed)], with its default continuity
    correction; the p-value is the chi-square survival function at the
    statistic.  A negative count, an empty table or a zero expected count
    raise.  An all-zero table has NaN expected counts. *)
Definition chi2_contingency (observed : list (list Z)) : result chi2_result :=
  if existsb (existsb (fun o => (o <? 0)%Z)) observed
  then inl (ValueError "All values in `observed` must be nonnegative.")
  else if (nrows observed * ncols observed =? 0)%nat
  then inl (ValueError "No data; `observed` has size 0.")
  else
    let expected := expected_freq observed in
    let df := degrees_of_freedom observed in
    if (grand_total observed =? 0)%Z then
      inr (if (df =? 0)%Z then mkChi2 (Finite 0) (p_exactly 1%R) df expected
           else mkChi2 NaN p_nan df expected)
    else if existsb (existsb (fun e => Qeq_bool e 0)) expected
    then inl (ValueError "The internally computed table of expected frequencies has a zero element.")
    else if (df =? 0)%Z then inr (mkChi2 (Finite 0) (p_exactly 1%R) df expected)
    else
      let obs := map (map inject_Z) observed in
      let adjusted :=
        if (df =? 1)%Z
        then map (fun oe => map (fun p => yates (fst p) (snd p)) (combine (fst oe) (snd oe)))
                 (combine obs expected)
        else obs in
      let x := pearson adjusted expected in
      inr (mkChi2 (Finite x) (p_chi2_survival df x) df expected).

(** [chi2, p_chi, dof, exp = stats.chi2_contingency(cont)] *)
Definition chi_square (claims : list claim) : result chi2_result :=
  chi2_contingency (cont claims).

(** A row whose smoker flag is 0 or 1. *)
Definition binary_flag (r : claim) : Prop :=
  match IsSmoker r with
  | Some q => q == 0 \/ q == 1
  | None => False
  end.

(** The squared standard error of the difference of two sample means. *)
Definition welch_se2 (xa xb : list Q) : Q :=
  Association.variance xa / count_Q xa + Association.variance xb / count_Q xb.

(** The Welch-Satterthwaite degrees of freedom of two samples, as the
    textbooks give them: with [a = s1^2 / n1] and [b = s2^2 / n2], the ratio
    [(a + b)^2 / (a^2 / (n1 - 1) + b^2 / (n2 - 1))]. *)
Definition welch_satterthwaite (xa xb : list Q) : Q :=
  let a := Association.variance xa / count_Q xa in
  let b := Association.variance xb / count_Q xb in
  (a + b) ^ 2 / (a ^ 2 / (count_Q xa - 1) + b ^ 2 / (count_Q xb - 1)).

(** One smoker and two non-smokers. *)
Definition lone_smoker : list claim :=
  [ mkClaim (Some 3000) (Some 51) (Some 1) (Some 0) "Cardiology";
    mkClaim (Some 1200) (Some 33) (Some 0) (Some 0) "Oncology";
    mkClaim (Some 800) (Some 47) (Some 0) (Some 1) "Oncology" ].

(** Two smokers and two non-smokers. *)
Definition two_and_two : list claim :=
  [ mkClaim (Some 3000) (Some 51) (Some 1) (Some 0) "Cardiology";
    mkClaim (Some 1200) (Some 33) (Some 0) (Some 0) "Oncology";
    mkClaim (Some 2000) (Some 60) (Some 1) (Some 1) "Cardiology";
    mkClaim (Some 800) (Some 47) (Some 0) (Some 1) "Oncology" ].

(** The amounts of its two groups. *)
Definition smokers_amounts : list Q := [3000; 2000].

Definition nonsmokers_amounts : list Q := [1200; 800].

(** A smoker's claim without an amount. *)
Definition unbilled : claim :=
  mkClaim None (Some 58) (Some 1) (Some 0) "Oncology".

(** Two claims of one department. *)
Definition one_department : list claim :=
  [ mkClaim (Some 3000) (Some 51) (Some 1) (Some 0) "Cardiology";
    mkClaim (Some 1200) (Some 33) (Some 0) (Some 0) "Cardiology" ].

End Tests.

(** ** The script as a whole: reads, steps and written files *)
Module Pipeline.

(** The files the script can see: the contents found at a path. *)
Definition files : Type := string -> option string.

(** [open(path, "w")] followed by a write, and [to_csv(path)] and
    [plt.savefig(path)]: the file at [path] is replaced. *)
Definition write_file (path text : string) (fs : files) : files :=
  fun p => if String.eqb p path then Some text else fs p.

(** A row of revenue_monthly.csv. *)
Record revenue_row : Type := mkRevenue {
  Month : string;
  Revenue : cell
}.

(** What pandas, matplotlib and Python's formatting contribute and the model
    does not describe: the parsers of the two input files, the statistics of
    steps 1 and 9, and the renderers of tables, figures and numbers.  Each is
    a function of its arguments. *)
Record library : Type := mkLibrary {
  read_csv_claims : string -> result (list claim);
  read_csv_revenue : string -> result (list revenue_row);
  descriptive_stats_csv : list cell -> result string;
  frequency_to_csv : Frequency.freq_table -> string;
  savefig_hist : list cell -> list Q -> result string;
  savefig_box : list Q -> result string;
  savefig_box_groups : list (list Q) -> list label -> result string;
  corr_to_csv : (Association.field -> Association.field -> option R) -> string;
  cov_to_csv : (Association.field -> Association.field -> option Q) -> string;
  savefig_scatter : list cell -> list cell -> result string;
  format_R : nat -> Tests.stat R -> string;
  format_Q : nat -> Tests.stat Q -> string;
  format_p : nat -> Tests.pvalue -> string;
  str_observed : list (list Z) -> string;
  str_expected : list (list Q) -> string;
  cats_to_csv : list (ExpectedValue.category * float) -> string;
  savefig_hist_revenue : list cell -> result string;
  revenue_describe_csv : list revenue_row -> result string
}.

Definition newline : string := ExpectedValue.newline.

(** The bytes between the event and the number in probability_demo.txt, as
    the script has them. *)
Definition approx_sign : string :=
  string_of_list_ascii
    (map ascii_of_nat [195; 162; 226; 128; 176; 203; 134]%nat).

(** One write of the script: the file it replaces and the text it computes
    from the two loaded tables; the computation may raise. *)
Record action : Type := mkAction {
  target : string;
  produce : library -> list claim -> list revenue_row -> result string
}.

Definition claims_csv : string := "data/claims.csv".
Definition revenue_csv : string := "data/revenue_monthly.csv".

Open Scope string_scope.

Definition anova_txt : string := "outputs/anova_by_department.txt".

(** The writes of run_analysis.py, in program order. *)
Definition program : list action :=
  [ mkAction "outputs/descriptive_stats_claims.csv"
      (fun lib claims _ => descriptive_stats_csv lib (amounts claims));
    mkAction "outputs/frequency_distribution_claims.csv"
      (fun lib claims _ =>
         freq_df <- Frequency.freq_df claims ;;
         inr (frequency_to_csv lib freq_df));
    mkAction "figures/hist_claim_amounts.png"
      (fun lib claims _ =>
         bins <- Frequency.bins claims ;;
         savefig_hist lib (amounts claims) bins);
    mkAction "figures/box_claim_all.png"
      (fun lib claims _ => savefig_box lib (dropna (amounts claims)));
    mkAction "figures/box_claim_by_dept.png"
      (fun lib claims _ =>
         dept_names <- Tests.dept_names claims ;;
         savefig_box_groups lib
           (map dropna (Tests.by_department dept_names claims)) dept_names);
    mkAction "outputs/correlation_matrix.csv"
      (fun lib claims _ => inr (corr_to_csv lib (Association.corr claims)));
    mkAction "outputs/covariance_matrix.csv"
      (fun lib claims _ => inr (cov_to_csv lib (Association.cov claims)));
    mkAction "figures/scatter_age_claim.png"
      (fun lib claims _ => savefig_scatter lib (map Age claims) (amounts claims));
    mkAction "outputs/t_test_smoker_vs_nonsmoker.txt"
      (fun lib claims _ =>
         inr ("Welch t-test: t=" ++ format_R lib 4 (Tests.t_stat claims)
              ++ ", p=" ++ format_p lib 6 (Tests.p_val claims) ++ newline));
    mkAction anova_txt
      (fun lib claims _ =>
         res <- Tests.anova claims ;;
         inr ("ANOVA: F=" ++ format_Q lib 4 (fst res)
              ++ ", p=" ++ format_p lib 6 (snd res) ++ newline));
    mkAction "outputs/chi_square_denied_vs_smoker.txt"
      (fun lib claims _ =>
         res <- Tests.chi_square claims ;;
         inr ("Chi-square: chi2=" ++ format_Q lib 4 (Tests.chi2 res)
              ++ ", p=" ++ format_p lib 6 (Tests.p_chi res)
              ++ ", dof=" ++ Render.digits (Tests.dof res) ++ newline
              ++ "Observed:" ++ newline ++ str_observed lib (Tests.cont claims)
              ++ newline ++ newline ++ "Expected:" ++ newline
              ++ str_expected lib (Tests.exp res) ++ newline));
    mkAction "outputs/expected_value_table.csv"
      (fun lib _ _ =>
         inr (cats_to_csv lib
                (map (fun c => (c, ExpectedValue.Contribution c)) ExpectedValue.cats)));
    mkAction "outputs/expected_value_result.txt"
      (fun _ _ _ => inr ExpectedValue.expected_value_result_txt);
    mkAction "outputs/probability_demo.txt"
      (fun _ claims _ =>
         inr ("P(ClaimAmount > 2500) " ++ approx_sign ++ " "
              ++ Probability.p_gt_2500_text claims ++ newline));
    mkAction "figures/hist_revenue.png"
      (fun lib _ revenue => savefig_hist_revenue lib (map Revenue revenue));
    mkAction "outputs/revenue_descriptive_stats.csv"
      (fun lib _ revenue => revenue_describe_csv lib revenue) ].

Close Scope string_scope.

(** How a run ends. *)
Inductive status : Type :=
| Finished
| Aborted (e : raised).

(** A run: the files it leaves, the writes it made in order, and its end. *)
Record outcome : Type := mkOutcome {
  final : files;
  written : list (string * string);
  exit : status
}.

(** The writes are made one after the other; the first exception ends the
    run and leaves the files written so far. *)
Fixpoint execute (lib : library) (acts : list action)
    (claims : list claim) (revenue : list revenue_row) (fs : files) : outcome :=
  match acts with
  | [] => mkOutcome fs [] Finished
  | a :: rest =>
      match produce a lib claims revenue with
      | inl e => mkOutcome fs [] (Aborted e)
      | inr text =>
          let o := execute lib rest claims revenue (write_file (target a) text fs) in
          mkOutcome (final o) ((target a, text) :: written o) (exit o)
      end
  end.

(** [pd.read_csv(path)] *)
Definition load {A : Type} (parse : string -> result A) (path : string) (fs : files)
    : result A :=
  match fs path with
  | None => inl (FileNotFoundError path)
  | Some text => parse text
  end.

(** The script: both tables are read, then the writes are made. *)
Definition run (lib : library) (fs : files) : outcome :=
  match load (read_csv_claims lib) claims_csv fs with
  | inl e => mkOutcome fs [] (Aborted e)
  | inr claims =>
      match load (read_csv_revenue lib) revenue_csv fs with
      | inl e => mkOutcome fs [] (Aborted e)
      | inr revenue => execute lib program claims revenue fs
      end
  end.

(** A path below a directory. *)
Definition under (dir path : string) : Prop := String.prefix dir path = true.

(** The paths a run wrote. *)
Definition written_paths (o : outcome) : list string := map fst (written o).

(** An instance of the library for running the script on examples: every
    input file parses to the given tables and every renderer gives the empty
    text. *)
Definition quiet_library (claims : list claim) (revenue : list revenue_row) : library :=
  mkLibrary (fun _ => inr claims) (fun _ => inr revenue)
            (fun _ => inr EmptyString) (fun _ => EmptyString)
            (fun _ _ => inr EmptyString) (fun _ => inr EmptyString)
            (fun _ _ => inr EmptyString)
            (fun _ => EmptyString) (fun _ => EmptyString)
            (fun _ _ => inr EmptyString)
            (fun _ _ => EmptyString) (fun _ _ => EmptyString) (fun _ _ => EmptyString)
            (fun _ => EmptyString) (fun _ => EmptyString) (fun _ => EmptyString)
            (fun _ => inr EmptyString) (fun _ => inr EmptyString).

(** A set of files that holds the two inputs and nothing else. *)
Definition inputs_only : files :=
  fun p => if String.eqb p claims_csv then Some "claims"%string
           else if String.eqb p revenue_csv then Some "revenue"%string
           else None.

End Pipeline.

(** * Properties *)

(** ** Comparisons and ratios of counts *)

Lemma Qgtb_lt (x y : Q) : Qgtb x y = true <-> (y < x)%Q.
Proof.
  unfold Qgtb. rewrite negb_true_iff. split; intro H.
  - apply Qnot_le_lt. intro Hle. apply Qle_bool_iff in Hle. congruence.
  - destruct (Qle_bool x y) eqn:E; [|reflexivity].
    apply Qle_bool_iff in E. exfalso. apply (Qlt_not_le _ _ H E).
Qed.

Lemma Qltb_lt (x y : Q) : Qltb x y = true <-> (x < y)%Q.
Proof. apply Qgtb_lt. Qed.

Lemma Qltb_ge (x y : Q) : Qltb x y = false <-> (y <= x)%Q.
Proof.
  unfold Qltb. rewrite negb_false_iff. apply Qle_bool_iff.
Qed.

Lemma ratio_of_counts_bounds (k n : nat) :
  (k <= n)%nat -> (0 < n)%nat ->
  (0 <= inject_Z (Z.of_nat k) / inject_Z (Z.of_nat n) <= 1)%Q.
Proof.
  intros Hkn Hn.
  assert (Hpos : (0 < inject_Z (Z.of_nat n))%Q).
  { change 0%Q with (inject_Z 0). rewrite <- Zlt_Qlt. lia. }
  split.
  - apply Qle_shift_div_l; [exact Hpos|].
    rewrite Qmult_0_l. change 0%Q with (inject_Z 0). rewrite <- Zle_Qle. lia.
  - apply Qle_shift_div_r; [exact Hpos|].
    rewrite Qmult_1_l. rewrite <- Zle_Qle. lia.
Qed.

Lemma filter_length_le {A : Type} (f : A -> bool) (l : list A) :
  (List.length (filter f l) <= List.length l)%nat.
Proof.
  induction l as [|a l IH]; simpl; [lia|].
  destruct (f a); simpl; lia.
Qed.

Lemma filter_none {A : Type} (f : A -> bool) (l : list A) :
  (forall y, In y l -> f y = false) -> filter f l = [].
Proof.
  intro H. induction l as [|y l IH]; [reflexivity|]. cbn [filter].
  rewrite (H y (or_introl eq_refl)). apply IH. intros z Hz. apply H. now right.
Qed.

Lemma filter_absorb {A : Type} (f g : A -> bool) (l : list A) :
  (forall y, f y = true -> g y = true) ->
  filter f (filter g l) = filter f l.
Proof.
  intro H. induction l as [|y l IH]; [reflexivity|]. cbn [filter].
  destruct (g y) eqn:Eg; cbn [filter]; destruct (f y) eqn:Ef; rewrite ?IH; try reflexivity.
  rewrite (H y Ef) in Eg. discriminate.
Qed.

Lemma filter_length_perm {A : Type} (f : A -> bool) (l l' : list A) :
  Permutation l l' -> List.length (filter f l) = List.length (filter f l').
Proof.
  induction 1 as [|y l l' _ IH|y z l|l l' l'' _ IH1 _ IH2]; cbn [filter].
  - reflexivity.
  - destruct (f y); cbn [List.length]; now rewrite IH.
  - destruct (f y), (f z); reflexivity.
  - now rewrite IH1.
Qed.

(** ** Step 8: empirical probability *)
Section ProbabilityFacts.

Import Probability.

Lemma the_sum_from (mask : list bool) (acc : Z) :
  fold_left (fun a (b : bool) => (a + (if b then 1 else 0))%Z) mask acc
  = (acc + Z.of_nat (List.length (filter (fun b => b) mask)))%Z.
Proof.
  revert acc. induction mask as [|b mask IH]; intro acc; simpl.
  - lia.
  - rewrite IH. destruct b; simpl; lia.
Qed.

Lemma the_sum_counts_true (mask : list bool) :
  the_sum mask = Z.of_nat (List.length (filter (fun b => b) mask)).
Proof. unfold the_sum. rewrite the_sum_from. lia. Qed.

Lemma mask_counts_rows (t : Q) (claims : list claim) :
  List.length (filter (fun b => b) (gt_mask t (amounts claims))) = rows_above t claims.
Proof.
  unfold gt_mask, amounts, rows_above.
  induction claims as [|r claims IH]; simpl; [reflexivity|].
  unfold exceeds at 1. unfold cell_gt at 1.
  destruct (ClaimAmount r) as [q|]; [destruct (Qgtb q t)|]; simpl; rewrite IH; reflexivity.
Qed.

Lemma rows_above_values_above (t : Q) (claims : list claim) :
  rows_above t claims = values_above t claims.
Proof.
  unfold rows_above, values_above, amounts.
  induction claims as [|r claims IH]; simpl; [reflexivity|].
  unfold exceeds at 1.
  destruct (ClaimAmount r) as [q|]; simpl; [destruct (Qgtb q t); simpl|]; rewrite IH; reflexivity.
Qed.

Lemma mask_length (t : Q) (claims : list claim) :
  List.length (gt_mask t (amounts claims)) = List.length claims.
Proof. unfold gt_mask, amounts. now rewrite !length_map. Qed.

Lemma p_gt_2500_value (claims : list claim) :
  claims <> [] ->
  p_gt_2500 claims
  = Some (inject_Z (Z.of_nat (rows_above 2500 claims))
          / inject_Z (Z.of_nat (List.length claims)))%Q.
Proof.
  intro Hne. unfold p_gt_2500, nanmean, count.
  rewrite mask_length, the_sum_counts_true, mask_counts_rows.
  destruct claims as [|r claims]; [congruence|].
  reflexivity.
Qed.

(** C1.  The probability written by step 8 is the number of rows whose
    ClaimAmount exceeds 2500 divided by the number of rows, and lies between 0
    and 1; on an empty table it is NaN, the undefined ratio 0/0, written nan;
    for ClaimAmount = [100, 500, 900, 2600, 5000] it is 2/5, written 0.4000. *)
Theorem p_gt_2500_is_ratio_of_counts (claims : list claim) :
  (claims = [] -> p_gt_2500 claims = None) /\
  (claims <> [] ->
   exists p : Q,
     p_gt_2500 claims = Some p /\
     (p == inject_Z (Z.of_nat (rows_above 2500 claims))
           / inject_Z (Z.of_nat (List.length claims)))%Q /\
     (0 <= p <= 1)%Q) /\
  p_gt_2500_text [] = "nan"%string /\
  p_gt_2500 scenario = Some (2 # 5)%Q /\
  p_gt_2500_text scenario = "0.4000"%string.
Proof.
  split; [|split; [|split; [|split]]].
  - intros ->. reflexivity.
  - intro Hne. eexists. split; [apply p_gt_2500_value; exact Hne|].
    split; [reflexivity|].
    apply ratio_of_counts_bounds.
    + apply filter_length_le.
    + destruct claims; [congruence|simpl; lia].
  - vm_compute. reflexivity.
  - reflexivity.
  - vm_compute. reflexivity.
Qed.

Lemma p_gt_2500_is_ratio_of_counts_witness :
  exists p : Q,
    p_gt_2500 scenario = Some p /\
    (p == inject_Z (Z.of_nat (rows_above 2500 scenario))
          / inject_Z (Z.of_nat (List.length scenario)))%Q /\
    (0 <= p <= 1)%Q.
Proof.
  apply (proj1 (proj2 (p_gt_2500_is_ratio_of_counts scenario))).
  discriminate.
Defined.

(** C10.  A comparison with a missing ClaimAmount is false, so a row with a
    missing amount adds one to the denominator and nothing to the numerator:
    on a table with at least one row the probability is the number of
    non-missing amounts above 2500 divided by the number of rows, missing ones
    included. *)
Theorem missing_amounts_count_in_denominator_only (claims : list claim) :
  (forall t : Q, cell_gt t None = false) /\
  (claims <> [] ->
   exists p : Q,
     p_gt_2500 claims = Some p /\
     (p == inject_Z (Z.of_nat (values_above 2500 claims))
           / inject_Z (Z.of_nat (List.length claims)))%Q) /\
  (forall r : claim,
     ClaimAmount r = None ->
     exists p : Q,
       p_gt_2500 (r :: claims) = Some p /\
       (p == inject_Z (Z.of_nat (values_above 2500 claims))
             / inject_Z (Z.of_nat (S (List.length claims))))%Q).
Proof.
  split; [reflexivity|split].
  - intro Hne. eexists. split; [apply p_gt_2500_value; exact Hne|].
    rewrite rows_above_values_above. reflexivity.
  - intros r Hr. eexists. split; [apply p_gt_2500_value; discriminate|].
    rewrite rows_above_values_above.
    unfold values_above, amounts. simpl. rewrite Hr. simpl. reflexivity.
Qed.

Lemma missing_amounts_count_in_denominator_only_witness :
  (exists p : Q,
     p_gt_2500 with_missing = Some p /\
     (p == inject_Z (Z.of_nat (values_above 2500 with_missing))
           / inject_Z (Z.of_nat (List.length with_missing)))%Q) /\
  (exists p : Q,
     p_gt_2500 (missing_amount_row :: with_missing) = Some p /\
     (p == inject_Z (Z.of_nat (values_above 2500 with_missing))
           / inject_Z (Z.of_nat (S (List.length with_missing))))%Q).
Proof.
  pose proof (missing_amounts_count_in_denominator_only with_missing) as [_ [H1 H2]].
  split.
  - apply H1. discriminate.
  - apply H2. reflexivity.
Defined.

End ProbabilityFacts.

(** ** Step 7: expected value *)
Section ExpectedValueFacts.

Import ExpectedValue.

(** C2.  In binary64, as the script computes them: each Contribution is the
    row's Prob times its AvgCost (620, 840.0000000000001 and 1000), ev is
    their sum, that sum is 0.62*1000 + 0.28*3000 + 0.10*10000 and equals 2460
    exactly, and the report line shows it as 2460.00. *)
Theorem ev_is_sum_of_contributions :
  Forall (fun c => Contribution c = (Prob c * Render.float_of_Z (AvgCost c))%float) cats /\
  map Contribution cats = [620; 840.0000000000001; 1000]%float /\
  ev = fold_left PrimFloat.add (map Contribution cats) 0%float /\
  ev = (0.62 * 1000 + 0.28 * 3000 + 0.10 * 10000)%float /\
  ev = 2460%float /\
  expected_value_result_txt = ("Expected Claim Cost = 2460.00" ++ newline)%string.
Proof.
  split; [|split; [|split; [|split; [|split]]]].
  - repeat constructor.
  - vm_compute. reflexivity.
  - reflexivity.
  - vm_compute. reflexivity.
  - vm_compute. reflexivity.
  - vm_compute. reflexivity.
Qed.

End ExpectedValueFacts.

(** ** Step 2: frequency distribution *)
Section FrequencyFacts.

Import Frequency.
Open Scope Q_scope.

Lemma inject_Z_sub (a b : Z) : inject_Z (a - b) == inject_Z a - inject_Z b.
Proof. unfold Z.sub. rewrite inject_Z_plus, inject_Z_opp. reflexivity. Qed.

Lemma arange_element (i : nat) :
  0 + inject_Z (Z.of_nat i) * 400 = inject_Z (400 * Z.of_nat i).
Proof.
  unfold Qplus, Qmult, inject_Z. cbn [Qnum Qden].
  f_equal. ring.
Qed.

Lemma arange_from_zero (stop : Q) :
  arange 0 stop 400
  = map (fun i => inject_Z (400 * Z.of_nat i))
        (seq 0 (Z.to_nat (Qceiling ((stop - 0) / 400)))).
Proof. unfold arange. apply map_ext. intro i. apply arange_element. Qed.

(** The number of edges: [c = ceil((m + 401) / 400)] satisfies
    [400 (c - 1) < m + 401 <= 400 c]. *)
Lemma ceiling_bounds (m : Q) :
  let c := Qceiling ((m + 401 - 0) / 400) in
  400 * (inject_Z c - 1) < m + 401 /\ m + 401 <= 400 * inject_Z c.
Proof.
  intro c. subst c. set (x := (m + 401 - 0) / 400).
  pose proof (Qle_ceiling x) as Hup.
  pose proof (Qceiling_lt x) as Hlow.
  rewrite inject_Z_sub in Hlow. change (inject_Z 1) with 1 in Hlow.
  assert (E : m + 401 == 400 * x) by (unfold x; field).
  clearbody x. split; lra.
Qed.

Lemma floor_bounds (m : Q) :
  let q := Qfloor (m / 400) in
  400 * inject_Z q <= m /\ m < 400 * inject_Z q + 400.
Proof.
  intro q. subst q. set (x := m / 400).
  pose proof (Qfloor_le x) as Hlow.
  pose proof (Qlt_floor x) as Hup.
  rewrite inject_Z_plus in Hup. change (inject_Z 1) with 1 in Hup.
  assert (E : m == 400 * x) by (unfold x; field).
  clearbody x. split; lra.
Qed.

Lemma inject_Z_lt_inv (a b : Z) : inject_Z a < inject_Z b -> (a < b)%Z.
Proof. intro H. rewrite <- Zlt_Qlt in H. exact H. Qed.

Lemma first_multiple_above_value (m : Q) :
  first_multiple_above m == 400 * inject_Z (Qfloor (m / 400)) + 400.
Proof.
  unfold first_multiple_above. rewrite inject_Z_mult, inject_Z_plus.
  change (inject_Z 400) with 400. change (inject_Z 1) with 1. ring.
Qed.

(** The edges of the bins, for a largest amount [m >= 0]: the multiples of 400
    below [m + 401]. *)
Lemma arange_edges (m : Q) :
  0 <= m ->
  exists k : nat,
    arange 0 (m + 401) 400 = edges_through k /\
    (1 <= k)%nat /\
    m + 1 <= inject_Z (400 * Z.of_nat k) /\
    inject_Z (400 * Z.of_nat k) < m + 401 /\
    (m - 400 * inject_Z (Qfloor (m / 400)) <= 399 ->
     inject_Z (400 * Z.of_nat k) == first_multiple_above m) /\
    (399 < m - 400 * inject_Z (Qfloor (m / 400)) ->
     inject_Z (400 * Z.of_nat k) == first_multiple_above m + 400).
Proof.
  intro Hm.
  pose proof (ceiling_bounds m) as [Hc1 Hc2].
  pose proof (floor_bounds m) as [Hf1 Hf2].
  set (c := Qceiling ((m + 401 - 0) / 400)) in *.
  set (q := Qfloor (m / 400)) in *.
  assert (Hc : (2 <= c)%Z).
  { assert (inject_Z 1 < inject_Z c) by (change (inject_Z 1) with 1; lra).
    apply inject_Z_lt_inv in H. lia. }
  exists (Z.to_nat (c - 1)).
  assert (Hk : Z.of_nat (Z.to_nat (c - 1)) = (c - 1)%Z) by lia.
  assert (Hkq : inject_Z (400 * Z.of_nat (Z.to_nat (c - 1))) == 400 * (inject_Z c - 1)).
  { rewrite Hk, inject_Z_mult, inject_Z_sub. reflexivity. }
  split; [|split; [|split; [|split; [|split]]]].
  - rewrite arange_from_zero. unfold edges_through. fold c.
    replace (S (Z.to_nat (c - 1))) with (Z.to_nat c) by lia. reflexivity.
  - lia.
  - rewrite Hkq. lra.
  - rewrite Hkq. lra.
  - intro Hr. rewrite Hkq, first_multiple_above_value. fold q.
    assert (c = q + 2)%Z.
    { assert (H1 : inject_Z (c - 1) < inject_Z (q + 2)).
      { rewrite inject_Z_sub, inject_Z_plus.
        change (inject_Z 1) with 1. change (inject_Z 2) with 2. lra. }
      assert (H2 : inject_Z (q + 1) < inject_Z c).
      { rewrite inject_Z_plus. change (inject_Z 1) with 1. lra. }
      apply inject_Z_lt_inv in H1, H2. lia. }
    subst c. rewrite H, inject_Z_plus. change (inject_Z 2) with 2. ring.
  - intro Hr. rewrite Hkq, first_multiple_above_value. fold q.
    assert (c = q + 3)%Z.
    { assert (H1 : inject_Z (c - 1) < inject_Z (q + 3)).
      { rewrite inject_Z_sub, inject_Z_plus.
        change (inject_Z 1) with 1. change (inject_Z 3) with 3. lra. }
      assert (H2 : inject_Z (q + 2) < inject_Z c).
      { rewrite inject_Z_plus. change (inject_Z 2) with 2. lra. }
      apply inject_Z_lt_inv in H1, H2. lia. }
    subst c. rewrite H, inject_Z_plus. change (inject_Z 3) with 3. ring.
Qed.

(** [searchsorted_left] returns the first position whose edge is not below
    the value. *)
Lemma searchsorted_left_spec (edges : list Q) (x : Q) :
  (searchsorted_left edges x <= List.length edges)%nat /\
  (forall i, (i < searchsorted_left edges x)%nat -> nth i edges 0 < x) /\
  ((searchsorted_left edges x < List.length edges)%nat ->
   x <= nth (searchsorted_left edges x) edges 0).
Proof.
  induction edges as [|e rest [IH1 [IH2 IH3]]]; simpl.
  - split; [lia|split; [intros i Hi; lia|intro H; lia]].
  - destruct (Qltb e x) eqn:E.
    + apply Qltb_lt in E. split; [lia|split].
      * intros [|i] Hi; [exact E|]. apply IH2. lia.
      * intro H. apply IH3. lia.
    + apply Qltb_ge in E. split; [lia|split].
      * intros i Hi. lia.
      * intros _. exact E.
Qed.

Lemma searchsorted_left_unique (edges : list Q) (x : Q) (i : nat) :
  ascending edges ->
  (S i < List.length edges)%nat ->
  nth i edges 0 < x -> x <= nth (S i) edges 0 ->
  searchsorted_left edges x = S i.
Proof.
  intros Hasc Hi Hlo Hhi.
  destruct (searchsorted_left_spec edges x) as [H1 [H2 H3]].
  set (k := searchsorted_left edges x) in *.
  destruct (Nat.lt_trichotomy k (S i)) as [Hlt|[Heq|Hgt]]; [|exact Heq|].
  - exfalso. assert (Hx : x <= nth k edges 0) by (apply H3; lia).
    assert (Hki : nth k edges 0 <= nth i edges 0) by (apply Hasc; lia).
    apply (Qlt_irrefl x). eapply Qle_lt_trans; [|exact Hlo].
    eapply Qle_trans; eassumption.
  - exfalso. assert (Hx : nth (S i) edges 0 < x) by (apply H2; lia).
    apply (Qlt_irrefl x). eapply Qle_lt_trans; eassumption.
Qed.

(** [pd.cut(..., right=True, include_lowest=True)] on ascending edges: a value
    falls in bin [i] exactly when it is above the lower edge and at most the
    upper edge of that bin, or when it is the lowest edge itself. *)
Lemma cut_one_spec (edges : list Q) (x : Q) (i : nat) :
  ascending edges ->
  cut_one edges (Some x) = Some i <->
  (S i < List.length edges)%nat /\
  ((nth i edges 0 < x /\ x <= nth (S i) edges 0) \/
   (i = 0%nat /\ x == nth 0 edges 0)).
Proof.
  intro Hasc. destruct edges as [|e0 rest].
  - simpl. split; [discriminate|]. intros [H _]. lia.
  - unfold cut_one. destruct (Qeq_bool x e0) eqn:E.
    + apply Qeq_bool_iff in E.
      destruct rest as [|e1 rest].
      * simpl. split; [discriminate|]. intros [H _]. lia.
      * cbn [List.length Nat.eqb orb Nat.sub]. split.
        -- intro H. injection H as <-. split; [simpl; lia|].
           right. split; [reflexivity|exact E].
        -- intros [Hi [[Hlo _]|[-> _]]]; [|reflexivity].
           exfalso. assert (H0 : nth 0 (e0 :: e1 :: rest) 0 <= nth i (e0 :: e1 :: rest) 0).
           { apply Hasc; simpl in *; lia. }
           simpl in H0. apply (Qlt_irrefl x).
           eapply Qle_lt_trans; [|exact Hlo]. rewrite E. exact H0.
    + assert (Hne : ~ x == e0).
      { intro H. apply Qeq_bool_iff in H. congruence. }
      destruct (searchsorted_left_spec (e0 :: rest) x) as [H1 [H2 H3]].
      set (k := searchsorted_left (e0 :: rest) x) in *.
      destruct (Nat.eqb_spec k (List.length (e0 :: rest))) as [Hk|Hk];
        [|destruct (Nat.eqb_spec k 0) as [Hz|Hz]]; cbn [orb].
      * split; [discriminate|].
        intros [Hi [[Hlo Hhi]|[_ Hx]]]; [|simpl in Hx; contradiction].
        pose proof (searchsorted_left_unique (e0 :: rest) x i Hasc Hi Hlo Hhi) as Hu.
        fold k in Hu. lia.
      * split; [discriminate|].
        intros [Hi [[Hlo Hhi]|[_ Hx]]]; [|simpl in Hx; contradiction].
        pose proof (searchsorted_left_unique (e0 :: rest) x i Hasc Hi Hlo Hhi) as Hu.
        fold k in Hu. lia.
      * split.
        -- intro H. injection H as <-.
           assert (Hs : S (k - 1) = k) by lia.
           split; [lia|]. left. split.
           ++ apply H2. lia.
           ++ rewrite Hs. apply H3. lia.
        -- intros [Hi [[Hlo Hhi]|[_ Hx]]]; [|simpl in Hx; contradiction].
           pose proof (searchsorted_left_unique (e0 :: rest) x i Hasc Hi Hlo Hhi) as Hu.
           fold k in Hu. f_equal. lia.
Qed.

Lemma edges_through_length (k : nat) : List.length (edges_through k) = S k.
Proof. unfold edges_through. now rewrite length_map, length_seq. Qed.

Lemma edges_through_nth (k i : nat) :
  (i <= k)%nat -> nth i (edges_through k) 0 = inject_Z (400 * Z.of_nat i).
Proof.
  intro Hi. unfold edges_through.
  change 0 with ((fun j => inject_Z (400 * Z.of_nat j)) 0%nat).
  rewrite map_nth. rewrite seq_nth by lia. reflexivity.
Qed.

Lemma edges_through_ascending (k : nat) : ascending (edges_through k).
Proof.
  intros i j Hij Hj. rewrite edges_through_length in Hj.
  rewrite !edges_through_nth by lia.
  rewrite <- Zle_Qle. lia.
Qed.

(** The bin of a value among the edges 0, 400, ..., 400 k. *)
Lemma cut_one_edges_through (k : nat) (x : Q) (i : nat) :
  cut_one (edges_through k) (Some x) = Some i <->
  (i < k)%nat /\
  ((inject_Z (400 * Z.of_nat i) < x /\ x <= inject_Z (400 * Z.of_nat (S i))) \/
   (i = 0%nat /\ x == 0)).
Proof.
  rewrite (cut_one_spec _ _ _ (edges_through_ascending k)).
  rewrite edges_through_length.
  split.
  - intros [Hi H]. split; [lia|].
    rewrite !edges_through_nth in H by lia. exact H.
  - intros [Hi H]. split; [lia|].
    rewrite !edges_through_nth by lia. exact H.
Qed.


Lemma max_present (claims : list claim) (m : Q) :
  max_ (amounts claims) = Some m -> bins claims = inr (arange 0 (m + 401) 400).
Proof. intro H. unfold bins. rewrite H. reflexivity. Qed.




(** *** Rounding *)

Lemma rint_error (q : Q) :
  inject_Z (Render.rint q) - (1 # 2) <= q /\ q <= inject_Z (Render.rint q) + (1 # 2).
Proof.
  destruct q as [n d]. unfold Render.rint. cbn [Qnum Qden].
  pose proof (Z.div_mod n (Zpos d) ltac:(lia)) as Hdm.
  pose proof (Z.mod_pos_bound n (Zpos d) ltac:(lia)) as Hb.
  set (fl := (n / Zpos d)%Z) in *. set (r := (n mod Zpos d)%Z) in *.
  destruct (2 * r ?= Zpos d)%Z eqn:C.
  - apply Z.compare_eq in C.
    destruct (Z.even fl); unfold Qle, Qminus, Qplus, Qopp, inject_Z;
      cbn [Qnum Qden]; rewrite ?Pos.mul_1_l, ?Z.mul_1_r; split; nia.
  - rewrite Z.compare_lt_iff in C.
    unfold Qle, Qminus, Qplus, Qopp, inject_Z; cbn [Qnum Qden]; rewrite ?Pos.mul_1_l, ?Z.mul_1_r; split; nia.
  - rewrite Z.compare_gt_iff in C.
    unfold Qle, Qminus, Qplus, Qopp, inject_Z; cbn [Qnum Qden]; rewrite ?Pos.mul_1_l, ?Z.mul_1_r; split; nia.
Qed.

Lemma rint_inject (q : Q) (z : Z) : q == inject_Z z -> Render.rint q = z.
Proof.
  destruct q as [n d]. unfold Qeq, inject_Z, Render.rint. cbn [Qnum Qden].
  intro H. assert (Hn : n = (z * Zpos d)%Z) by lia. subst n.
  rewrite Z.div_mul by lia. rewrite Z.mod_mul by lia.
  reflexivity.
Qed.

Lemma rint_nonneg (q : Q) : 0 <= q -> (0 <= Render.rint q)%Z.
Proof.
  intro Hq. destruct (rint_error q) as [_ Hup].
  assert (H : inject_Z (-1) < inject_Z (Render.rint q)).
  { change (inject_Z (-1)) with (- (1))%Q. lra. }
  apply inject_Z_lt_inv in H. lia.
Qed.

Lemma round2_cents (q : Q) : round2 q = cents (Render.rint (q * 100)).
Proof. reflexivity. Qed.

Lemma round2_error (q : Q) :
  round2 q - (1 # 200) <= q /\ q <= round2 q + (1 # 200).
Proof.
  destruct (rint_error (q * 100)) as [Hlo Hup].
  assert (E : round2 q * 100 == inject_Z (Render.rint (q * 100))).
  { unfold round2. field. }
  split; lra.
Qed.

Lemma cents_plus (a b : Z) : cents a + cents b == cents (a + b).
Proof. unfold cents. rewrite inject_Z_plus. field. Qed.

Lemma round2_of_cents (x : Q) (z : Z) : x == cents z -> round2 x = cents z.
Proof.
  intro H. rewrite round2_cents. f_equal. apply rint_inject.
  rewrite H. unfold cents. field.
Qed.

(** *** The largest amount falls in a bin *)

Lemma fold_max_in (rest : list Q) (q : Q) : In (fold_left Qmax rest q) (q :: rest).
Proof.
  revert q. induction rest as [|y rest IH]; intro q; simpl.
  - left. reflexivity.
  - destruct (IH (Qmax q y)) as [H|H].
    + rewrite <- H. unfold Qmax. destruct (Qle_bool q y); auto.
    + right. right. exact H.
Qed.

Lemma dropna_in (col : list cell) (q : Q) : In q (dropna col) -> In (Some q) col.
Proof.
  induction col as [|[x|] col IH]; simpl; intro H.
  - exact H.
  - destruct H as [H|H]; [left; congruence|right; auto].
  - right. auto.
Qed.

Lemma max_in_column (col : list cell) (m : Q) : max_ col = Some m -> In (Some m) col.
Proof.
  unfold max_. destruct (dropna col) as [|q rest] eqn:E; [discriminate|].
  intro H. injection H as <-. apply dropna_in. rewrite E. apply fold_max_in.
Qed.

Lemma binned (k : nat) (x : Q) :
  (1 <= k)%nat -> 0 <= x -> x < inject_Z (400 * Z.of_nat k) ->
  exists i : nat, (i < k)%nat /\ cut_one (edges_through k) (Some x) = Some i.
Proof.
  intros Hk Hx Hlt. destruct (Qeq_dec x 0) as [Hz|Hnz].
  - exists 0%nat. split; [lia|]. apply cut_one_edges_through.
    split; [lia|]. right. split; [reflexivity|exact Hz].
  - assert (Hpos : 0 < x).
    { destruct (Qlt_le_dec 0 x) as [H|H]; [exact H|].
      exfalso. apply Hnz. apply Qle_antisym; assumption. }
    set (y := x / 400).
    pose proof (Qle_ceiling y) as Hup.
    pose proof (Qceiling_lt y) as Hlow.
    rewrite inject_Z_sub in Hlow. change (inject_Z 1) with 1 in Hlow.
    assert (E : x == 400 * y) by (unfold y; field).
    clearbody y. set (c := Qceiling y) in *. clearbody c.
    assert (Hc : (1 <= c)%Z).
    { assert (H : inject_Z 0 < inject_Z c) by (change (inject_Z 0) with 0; lra).
      apply inject_Z_lt_inv in H. lia. }
    rewrite inject_Z_mult in Hlt. change (inject_Z 400) with 400 in Hlt.
    assert (Hck : (c - 1 < Z.of_nat k)%Z).
    { apply inject_Z_lt_inv. rewrite inject_Z_sub. change (inject_Z 1) with 1. lra. }
    exists (Z.to_nat (c - 1)). split; [lia|].
    apply cut_one_edges_through. split; [lia|]. left.
    rewrite Nat2Z.inj_succ, Z2Nat.id by lia.
    rewrite !inject_Z_mult. change (inject_Z 400) with 400.
    unfold Z.succ. rewrite inject_Z_sub, inject_Z_plus, inject_Z_sub.
    change (inject_Z 1) with 1. split; lra.
Qed.

Lemma filter_In_length {A : Type} (f : A -> bool) (l : list A) (x : A) :
  In x l -> f x = true -> (0 < List.length (filter f l))%nat.
Proof.
  induction l as [|a l IH]; simpl; intros HIn Hf; [contradiction|].
  destruct HIn as [->|HIn].
  - rewrite Hf. simpl. lia.
  - destruct (f a); simpl; [lia|auto].
Qed.

Lemma Zsum_member (l : list Z) (y : Z) :
  Forall (fun x => (0 <= x)%Z) l -> In y l -> (y <= Zsum l)%Z.
Proof.
  induction 1 as [|x l Hx Hl IH]; simpl; intro HIn; [contradiction|].
  assert (0 <= Zsum l)%Z.
  { clear IH HIn. induction Hl; simpl; [lia|]. unfold Zsum in *. simpl. lia. }
  destruct HIn as [->|HIn]; [lia|]. specialize (IH HIn). lia.
Qed.

Lemma freq_nonneg (n : nat) (codes : list (option nat)) :
  Forall (fun x => (0 <= x)%Z) (freq n codes).
Proof.
  unfold freq. apply Forall_forall. intros x Hx.
  apply in_map_iff in Hx. destruct Hx as [i [<- _]]. lia.
Qed.

Lemma freq_length (n : nat) (codes : list (option nat)) :
  List.length (freq n codes) = n.
Proof. unfold freq. now rewrite length_map, length_seq. Qed.

Lemma freq_total_pos (n : nat) (codes : list (option nat)) (i : nat) :
  (i < n)%nat -> In (Some i) codes -> (0 < Zsum (freq n codes))%Z.
Proof.
  intros Hi HIn.
  assert (Hc : (0 < List.length (filter (in_bin i) codes))%nat).
  { apply (filter_In_length _ _ (Some i) HIn). simpl. apply Nat.eqb_refl. }
  eapply Z.lt_le_trans; [|apply (Zsum_member _ _ (freq_nonneg n codes))].
  - instantiate (1 := Z.of_nat (List.length (filter (in_bin i) codes))). lia.
  - unfold freq. apply in_map_iff. exists i. split; [reflexivity|].
    apply in_seq. lia.
Qed.

(** *** Percentages *)

Lemma percentages_total (T : Z) (f : list Z) :
  Qsum (map (fun x => inject_Z x / inject_Z T * 100) f)
  == inject_Z (Zsum f) / inject_Z T * 100.
Proof.
  induction f as [|x f IH]; simpl.
  - unfold Qdiv. ring.
  - unfold Qsum in *. simpl. rewrite IH. unfold Zsum. simpl.
    rewrite inject_Z_plus. unfold Qdiv. ring.
Qed.

Lemma sum_round2_error (l : list Q) :
  Qsum (map round2 l) - (1 # 200) * count_Q l <= Qsum l /\
  Qsum l <= Qsum (map round2 l) + (1 # 200) * count_Q l.
Proof.
  unfold count_Q. induction l as [|q l [IH1 IH2]].
  - split; vm_compute; discriminate.
  - cbn [map List.length]. rewrite Nat2Z.inj_succ. unfold Z.succ.
    rewrite inject_Z_plus. change (inject_Z 1) with 1.
    unfold Qsum in *. cbn [fold_right].
    destruct (round2_error q) as [H1 H2]. split; lra.
Qed.

Lemma Qsum_cents (rs : list Z) : Qsum (map cents rs) == cents (Zsum rs).
Proof.
  induction rs as [|r rs IH].
  - reflexivity.
  - unfold Qsum in *. cbn [map fold_right]. rewrite IH.
    rewrite cents_plus. reflexivity.
Qed.

Lemma cents_le (a b : Z) : (a <= b)%Z -> cents a <= cents b.
Proof.
  intro H. unfold cents, Qdiv. apply Qmult_le_compat_r.
  - rewrite <- Zle_Qle. exact H.
  - discriminate.
Qed.

(** *** Cumulative percentages *)

Lemma cumulative_cents (rs : list Z) (acc : Q) (a : Z) :
  acc == cents a ->
  map round2_cell (cumsum_from acc (map Some (map cents rs)))
  = map Some (map cents (running a rs)).
Proof.
  revert acc a. induction rs as [|r rs IH]; intros acc a Hacc.
  - reflexivity.
  - cbn [map cumsum_from running round2_cell option_map].
    assert (H : acc + cents r == cents (a + r)).
    { rewrite Hacc. apply cents_plus. }
    rewrite (round2_of_cents _ _ H). f_equal. apply IH. exact H.
Qed.

Lemma running_sorted (rs : list Z) (a : Z) :
  Forall (fun r => (0 <= r)%Z) rs -> Sorted Qle (map cents (running a rs)).
Proof.
  intro H. revert a. induction H as [|r rs Hr Hrs IH]; intro a.
  - constructor.
  - cbn [running map]. constructor; [apply IH|].
    destruct Hrs as [|r' rs' Hr' _]; cbn [running map]; constructor.
    apply cents_le. lia.
Qed.

Lemma running_last (rs : list Z) (a : Z) :
  rs <> [] -> last (map cents (running a rs)) 0 = cents (a + Zsum rs).
Proof.
  revert a. induction rs as [|r rs IH]; intros a Hne; [congruence|].
  destruct rs as [|r' rs].
  - cbn. f_equal. lia.
  - change (running a (r :: r' :: rs)) with ((a + r)%Z :: running (a + r) (r' :: rs)).
    change (map cents ((a + r)%Z :: running (a + r) (r' :: rs)))
      with (cents (a + r) :: map cents (running (a + r) (r' :: rs))).
    assert (Hne' : map cents (running (a + r) (r' :: rs)) <> []) by (cbn; discriminate).
    destruct (map cents (running (a + r) (r' :: rs))) as [|c cs] eqn:E; [congruence|].
    change (last (cents (a + r) :: c :: cs) 0) with (last (c :: cs) 0).
    rewrite <- E. rewrite IH by discriminate.
    f_equal. unfold Zsum. cbn [fold_right]. lia.
Qed.

Lemma labels_length (edges : list Q) :
  List.length (labels edges) = (List.length edges - 1)%nat.
Proof.
  induction edges as [|lo [|hi rest] IH]; [reflexivity|reflexivity|].
  change (labels (lo :: hi :: rest))
    with ((int_text lo ++ "-" ++ int_text (hi - 1))%string :: labels (hi :: rest)).
  cbn [List.length] in *. rewrite IH. lia.
Qed.

Lemma cut_edges_through (k : nat) (col : list cell) :
  cut (edges_through k) col = inr (map (cut_one (edges_through k)) col).
Proof.
  unfold cut. destruct (edges_through k) eqn:E; [|reflexivity].
  pose proof (edges_through_length k) as H. rewrite E in H. discriminate.
Qed.

Lemma Qabs_bound (x y e : Q) : x - e <= y -> y <= x + e -> Qabs (x - y) <= e.
Proof. intros H1 H2. apply Qabs_Qle_condition. split; lra. Qed.

Lemma running_length (rs : list Z) (a : Z) :
  List.length (running a rs) = List.length rs.
Proof.
  revert a. induction rs as [|r rs IH]; intro a; [reflexivity|].
  cbn [running List.length]. now rewrite IH.
Qed.

(** The table computed from edges 0, 400, ..., 400 k and a positive total. *)
Lemma freq_df_value (claims : list claim) (k : nat) :
  bins claims = inr (edges_through k) ->
  let f := freq k (map (cut_one (edges_through k)) (amounts claims)) in
  let rs := map (fun x => Render.rint (inject_Z x / inject_Z (Zsum f) * 100 * 100)) f in
  (0 < Zsum f)%Z ->
  freq_df claims
  = inr (mkFreq (labels (edges_through k)) f
                (map Some (map cents rs))
                (map Some (map cents (running 0 rs)))).
Proof.
  intros Hbins f rs HT. unfold freq_df. rewrite Hbins. cbn [bind].
  rewrite cut_edges_through. cbn [bind].
  rewrite edges_through_length. replace (S k - 1)%nat with k by lia. fold f.
  assert (Hrel : map (fun x => round2_cell (percent (Zsum f) x)) f
                 = map Some (map cents rs)).
  { unfold rs. rewrite !map_map. apply map_ext. intro x.
    unfold percent. destruct (Z.eqb_spec (Zsum f) 0) as [H0|_]; [lia|].
    reflexivity. }
  rewrite Hrel. f_equal. f_equal.
  unfold cumsum. apply cumulative_cents. reflexivity.
Qed.

Lemma running_ascending (rs : list Z) (a : Z) :
  Forall (fun r => (0 <= r)%Z) rs -> Sorted Z.le (running a rs).
Proof.
  intro H. revert a. induction H as [|r rs Hr Hrs IH]; intro a.
  - constructor.
  - cbn [running]. constructor; [apply IH|].
    destruct Hrs as [|r' rs' Hr' _]; cbn [running]; constructor. lia.
Qed.

Lemma running_ends_at_sum (rs : list Z) (a : Z) :
  rs <> [] -> last (running a rs) 0%Z = (a + Zsum rs)%Z.
Proof.
  revert a. induction rs as [|r rs IH]; intros a Hne; [congruence|].
  destruct rs as [|r' rs].
  - cbn. lia.
  - change (running a (r :: r' :: rs)) with ((a + r)%Z :: running (a + r) (r' :: rs)).
    assert (Hne' : running (a + r) (r' :: rs) <> []) by (cbn; discriminate).
    destruct (running (a + r) (r' :: rs)) as [|c cs] eqn:E; [congruence|].
    change (last ((a + r)%Z :: c :: cs) 0%Z) with (last (c :: cs) 0%Z).
    rewrite <- E. rewrite IH by discriminate.
    unfold Zsum. cbn [fold_right]. lia.
Qed.

(** A bound on a sum of hundredths, as a bound on whole numbers. *)
Lemma hundredths_bound (S : Z) (n : nat) :
  Qabs (cents S - 100) <= (1 # 200) * inject_Z (Z.of_nat n) ->
  (2 * Z.abs (S - 10000) <= Z.of_nat n)%Z.
Proof.
  intro H. apply Qabs_Qle_condition in H. destruct H as [Hlo Hhi].
  unfold cents in Hlo, Hhi.
  assert (E : inject_Z S / 100 - 100 == (1 # 200) * inject_Z (2 * (S - 10000))).
  { rewrite inject_Z_mult, inject_Z_sub. change (inject_Z 2) with 2.
    change (inject_Z 10000) with 10000. field. }
  rewrite E in Hlo, Hhi.
  assert (H1 : inject_Z (2 * (S - 10000)) <= inject_Z (Z.of_nat n)) by lra.
  assert (H2 : inject_Z (- Z.of_nat n) <= inject_Z (2 * (S - 10000))).
  { rewrite inject_Z_opp. lra. }
  rewrite <- Zle_Qle in H1, H2. lia.
Qed.

(** C3, as amended.  When some amount is present and the largest one is not
    negative, the frequency table has numeric percentages, each a whole
    number of hundredths.  The relative percentages sum to 100 within half a
    hundredth per bin; the cumulative percentages never decrease along the
    bins and end at that sum, so within the same tolerance of 100. *)
Theorem frequency_percentages_sum_to_100 (claims : list claim) (m : Q) :
  max_ (amounts claims) = Some m ->
  0 <= m ->
  exists (t : freq_table) (rs cs : list Z),
    freq_df claims = inr t /\
    Relative t = map Some (map cents rs) /\
    Cumulative t = map Some (map cents cs) /\
    List.length rs = List.length (Range t) /\
    List.length cs = List.length (Range t) /\
    (0 < List.length (Range t))%nat /\
    (2 * Z.abs (Zsum rs - 10000) <= Z.of_nat (List.length rs))%Z /\
    Sorted Z.le cs /\
    last cs 0%Z = Zsum rs /\
    Qabs (Qsum (map cents rs) - 100) <= (1 # 200) * count_Q rs /\
    Qabs (last (map cents cs) 0 - 100) <= (1 # 200) * count_Q rs.
Proof.
  intros Hmax Hm.
  destruct (arange_edges m Hm) as [k [Hk [Hk1 [Hlo [Hhi _]]]]].
  assert (Hbins : bins claims = inr (edges_through k)).
  { rewrite (max_present claims m Hmax), Hk. reflexivity. }
  assert (Hmk : m < inject_Z (400 * Z.of_nat k)) by lra.
  destruct (binned k m Hk1 Hm Hmk) as [i [Hi Hcode]].
  set (codes := map (cut_one (edges_through k)) (amounts claims)).
  set (f := freq k codes).
  assert (HT : (0 < Zsum f)%Z).
  { apply (freq_total_pos k codes i Hi). unfold codes. rewrite <- Hcode.
    apply in_map. apply max_in_column. exact Hmax. }
  set (ps := map (fun x => inject_Z x / inject_Z (Zsum f) * 100) f).
  set (rs := map (fun x => Render.rint (inject_Z x / inject_Z (Zsum f) * 100 * 100)) f).
  assert (Hrs : map cents rs = map round2 ps).
  { unfold rs, ps. rewrite !map_map. reflexivity. }
  assert (Hlen : List.length rs = k).
  { unfold rs. rewrite length_map. apply freq_length. }
  assert (Hne : rs <> []).
  { intro H. rewrite H in Hlen. simpl in Hlen. lia. }
  assert (Hnonneg : Forall (fun r => (0 <= r)%Z) rs).
  { unfold rs. apply Forall_forall. intros r Hr.
    apply in_map_iff in Hr. destruct Hr as [x [<- Hx]].
    apply rint_nonneg.
    assert (Hx0 : (0 <= x)%Z).
    { pose proof (freq_nonneg k codes) as Hf.
      rewrite Forall_forall in Hf. apply Hf. exact Hx. }
    apply Qmult_le_0_compat; [|discriminate].
    apply Qmult_le_0_compat; [|discriminate].
    apply Qle_shift_div_l.
    - change 0 with (inject_Z 0). rewrite <- Zlt_Qlt. exact HT.
    - rewrite Qmult_0_l. change 0 with (inject_Z 0). rewrite <- Zle_Qle. exact Hx0. }
  assert (Hsum : Qabs (Qsum (map cents rs) - 100) <= (1 # 200) * count_Q rs).
  { assert (Hps : Qsum ps == 100).
    { unfold ps. rewrite percentages_total. field.
      intro H0. assert (H1 : inject_Z 0 < inject_Z (Zsum f)) by (rewrite <- Zlt_Qlt; exact HT).
      change (inject_Z 0) with 0 in H1. rewrite H0 in H1. apply (Qlt_irrefl 0 H1). }
    destruct (sum_round2_error ps) as [H1 H2].
    assert (Hc : count_Q rs = count_Q ps).
    { unfold count_Q. unfold rs, ps. rewrite !length_map. reflexivity. }
    rewrite Hc, Hrs. apply Qabs_bound; lra. }
  assert (Hlast : last (map cents (running 0 rs)) 0 == Qsum (map cents rs)).
  { rewrite (running_last rs 0 Hne), Qsum_cents. reflexivity. }
  eexists. exists rs, (running 0 rs).
  split; [apply (freq_df_value claims k Hbins); exact HT|].
  cbn [Relative Cumulative Range].
  rewrite labels_length, edges_through_length, running_length.
  replace (S k - 1)%nat with k by lia.
  split; [reflexivity|]. split; [reflexivity|].
  split; [exact Hlen|]. split; [exact Hlen|]. split; [lia|].
  split.
  { apply hundredths_bound. rewrite <- Qsum_cents. exact Hsum. }
  split; [apply running_ascending; exact Hnonneg|].
  split; [rewrite (running_ends_at_sum rs 0 Hne); lia|].
  split; [exact Hsum|].
  rewrite Hlast. exact Hsum.
Qed.

Lemma frequency_percentages_sum_to_100_witness :
  exists (t : freq_table) (rs cs : list Z),
    freq_df Probability.scenario = inr t /\
    Relative t = map Some (map cents rs) /\
    Cumulative t = map Some (map cents cs) /\
    List.length rs = List.length (Range t) /\
    List.length cs = List.length (Range t) /\
    (0 < List.length (Range t))%nat /\
    (2 * Z.abs (Zsum rs - 10000) <= Z.of_nat (List.length rs))%Z /\
    Sorted Z.le cs /\
    last cs 0%Z = Zsum rs /\
    Qabs (Qsum (map cents rs) - 100) <= (1 # 200) * count_Q rs /\
    Qabs (last (map cents cs) 0 - 100) <= (1 # 200) * count_Q rs.
Proof.
  apply (frequency_percentages_sum_to_100 Probability.scenario 5000).
  - reflexivity.
  - unfold Qle. simpl. lia.
Defined.

(** C3, as stated, fails on a sequence that is not empty: when its only
    amount is missing no table is built, the largest amount being NaN; and
    when its only amount is -500 there is no bin edge at all. *)
Lemma frequency_table_needs_an_amount :
  amounts [Probability.missing_amount_row] <> [] /\
  freq_df [Probability.missing_amount_row]
  = inl (ValueError "arange: cannot compute length") /\
  amounts below_zero = [Some (-500)] /\
  bins below_zero = inr [] /\
  (forall t : freq_table, freq_df below_zero <> inr t).
Proof.
  split; [discriminate|]. split; [reflexivity|]. split; [reflexivity|].
  split; [reflexivity|]. intros t H. vm_compute in H. discriminate.
Qed.

End FrequencyFacts.

(** ** Step 5: correlation and covariance *)
Section AssociationFacts.

Import Association.
Open Scope Q_scope.





(** The sum of squared deviations of a column about its mean. *)
Lemma sum_dev_squares (l : list Q) :
  sum_dev l l = Qsum (map (fun x => (x - mean l) * (x - mean l)) l).
Proof.
  unfold sum_dev. f_equal. generalize (mean l). intro c.
  induction l as [|x l IH]; simpl; [reflexivity|]. now rewrite IH.
Qed.


Lemma Qsquare_nonneg (a : Q) : 0 <= a * a.
Proof.
  destruct (Qlt_le_dec a 0) as [H|H].
  - setoid_replace (a * a) with ((- a) * (- a)) by ring.
    apply Qmult_le_0_compat; lra.
  - apply Qmult_le_0_compat; exact H.
Qed.

Lemma Qsquare_zero (a : Q) : a * a == 0 -> a == 0.
Proof. intro H. destruct (Qmult_integral _ _ H); assumption. Qed.

Lemma squares_nonneg (c : Q) (l : list Q) :
  0 <= Qsum (map (fun x => (x - c) * (x - c)) l).
Proof.
  induction l as [|x l IH]; unfold Qsum in *; cbn [map fold_right]; [apply Qle_refl|].
  pose proof (Qsquare_nonneg (x - c)). lra.
Qed.




Lemma count_Q_pos {A : Type} (l : list A) : l <> [] -> 0 < count_Q l.
Proof.
  intro H. unfold count_Q. change 0 with (inject_Z 0). rewrite <- Zlt_Qlt.
  destruct l; [congruence|simpl; lia].
Qed.




Lemma sum_dev_nonneg (l : list Q) : 0 <= sum_dev l l.
Proof. rewrite sum_dev_squares. apply squares_nonneg. Qed.



Lemma variance_nonneg (l : list Q) : 0 <= variance l.
Proof.
  unfold variance. pose proof (sum_dev_nonneg l) as Hnn.
  set (s := sum_dev l l) in *. clearbody s.
  destruct (List.length l - 1)%nat as [|n].
  - unfold Qdiv. change (/ inject_Z (Z.of_nat 0)) with 0. lra.
  - apply Qle_shift_div_l; [|lra].
    change 0 with (inject_Z 0). rewrite <- Zlt_Qlt. lia.
Qed.



End AssociationFacts.

(** ** Step 6: hypothesis tests *)
Section TestsFacts.

Import Tests.
Open Scope Q_scope.

(** *** a) Welch t-test *)

Lemma flag_not_both (c : cell) : cell_eq 1 c = true -> cell_eq 0 c = false.
Proof.
  destruct c as [q|]; simpl; [|discriminate].
  intro H1. destruct (Qeq_bool q 0) eqn:H0; [|reflexivity].
  apply Qeq_bool_iff in H1, H0. rewrite H1 in H0. discriminate.
Qed.

Lemma binary_flag_cases (r : claim) :
  binary_flag r ->
  (cell_eq 1 (IsSmoker r) = true /\ cell_eq 0 (IsSmoker r) = false) \/
  (cell_eq 1 (IsSmoker r) = false /\ cell_eq 0 (IsSmoker r) = true).
Proof.
  unfold binary_flag. destruct (IsSmoker r) as [q|]; [|contradiction].
  intros [H|H].
  - right. simpl. split.
    + destruct (Qeq_bool q 1) eqn:E; [|reflexivity].
      apply Qeq_bool_iff in E. rewrite H in E. discriminate.
    + apply Qeq_bool_iff. exact H.
  - left. assert (H1 : cell_eq 1 (Some q) = true) by (apply Qeq_bool_iff; exact H).
    split; [exact H1|apply flag_not_both; exact H1].
Qed.

(** With flags 0 and 1 only, the two groups split the column of amounts. *)
Lemma groups_partition (claims : list claim) :
  Forall binary_flag claims ->
  Permutation (amounts claims) (sm claims ++ ns claims).
Proof.
  unfold amounts, sm, ns. induction 1 as [|r claims Hr _ IH]; [constructor|].
  cbn [map filter].
  destruct (binary_flag_cases r Hr) as [[H1 H0]|[H1 H0]]; rewrite H1, H0; cbn [map app].
  - apply perm_skip. exact IH.
  - apply Permutation_cons_app. exact IH.
Qed.

Lemma no_missing_values (a : list cell) :
  existsb is_missing a = false -> a = map Some (dropna a).
Proof.
  induction a as [|[q|] a IH]; simpl; intro H; [reflexivity| |discriminate].
  f_equal. apply IH. exact H.
Qed.

Lemma dropna_present (l : list Q) : dropna (map Some l) = l.
Proof. induction l as [|q l IH]; simpl; [reflexivity|now rewrite IH]. Qed.

Lemma present_not_missing (l : list Q) : existsb is_missing (map Some l) = false.
Proof. induction l as [|q l IH]; simpl; [reflexivity|exact IH]. Qed.

Lemma var_ddof1_single (l : list Q) :
  (List.length l < 2)%nat -> var_ddof1 l = None.
Proof.
  intro H. unfold var_ddof1.
  destruct (Nat.eqb_spec (List.length l - 1) 0) as [_|Hn]; [reflexivity|lia].
Qed.

Lemma var_ddof1_variance (l : list Q) :
  (2 <= List.length l)%nat -> var_ddof1 l = Some (Association.variance l).
Proof.
  intro H. unfold var_ddof1, Association.variance.
  destruct (Nat.eqb_spec (List.length l - 1) 0) as [Hn|_]; [lia|].
  rewrite sum_dev_squares. reflexivity.
Qed.

(** A sample with fewer than two observations makes the test undefined. *)
Lemma ttest_ind_small (a b : list cell) :
  (List.length a < 2)%nat \/ (List.length b < 2)%nat ->
  ttest_ind a b = (NaN, p_nan).
Proof.
  intro Hsmall. unfold ttest_ind.
  destruct a as [|c a']; [reflexivity|].
  destruct b as [|d b']; [reflexivity|].
  destruct (existsb is_missing (c :: a') || existsb is_missing (d :: b')) eqn:M;
    [reflexivity|].
  apply orb_false_elim in M. destruct M as [Ma Mb].
  pose proof (no_missing_values _ Ma) as Ha.
  pose proof (no_missing_values _ Mb) as Hb.
  assert (Hla : List.length (dropna (c :: a')) = List.length (c :: a')).
  { rewrite Ha at 2. now rewrite length_map. }
  assert (Hlb : List.length (dropna (d :: b')) = List.length (d :: b')).
  { rewrite Hb at 2. now rewrite length_map. }
  destruct Hsmall as [H|H].
  - rewrite (var_ddof1_single (dropna (c :: a'))) by lia. reflexivity.
  - rewrite (var_ddof1_single (dropna (d :: b'))) by lia.
    destruct (var_ddof1 (dropna (c :: a'))); reflexivity.
Qed.

(** Two samples of at least two present values each, with a non-zero
    standard error, give Welch's statistic. *)
Lemma ttest_ind_welch (xa xb : list Q) :
  (2 <= List.length xa)%nat -> (2 <= List.length xb)%nat ->
  ~ welch_se2 xa xb == 0 ->
  ttest_ind (map Some xa) (map Some xb)
  = (Finite (Q2R (mean xa - mean xb) / sqrt (Q2R (welch_se2 xa xb)))%R,
     p_student_two_sided
       (welch_df (Association.variance xa / count_Q xa)
                 (Association.variance xb / count_Q xb)
                 (List.length xa) (List.length xb))
       (Q2R (mean xa - mean xb) / sqrt (Q2R (welch_se2 xa xb)))%R).
Proof.
  intros Ha Hb Hse. unfold ttest_ind.
  destruct xa as [|x xa']; [simpl in Ha; lia|].
  destruct xb as [|y xb']; [simpl in Hb; lia|].
  change (map Some (x :: xa')) with (Some x :: map Some xa').
  change (map Some (y :: xb')) with (Some y :: map Some xb').
  cbv iota.
  change (Some x :: map Some xa') with (map Some (x :: xa')).
  change (Some y :: map Some xb') with (map Some (y :: xb')).
  rewrite !present_not_missing, !dropna_present. cbn [orb].
  rewrite (var_ddof1_variance _ Ha), (var_ddof1_variance _ Hb).
  fold (welch_se2 (x :: xa') (y :: xb')).
  destruct (Qeq_bool (welch_se2 (x :: xa') (y :: xb')) 0) eqn:E.
  - apply Qeq_bool_iff in E. contradiction.
  - reflexivity.
Qed.

Lemma count_Q_pred {A : Type} (l : list A) :
  (1 <= List.length l)%nat ->
  inject_Z (Z.of_nat (List.length l - 1)) == count_Q l - 1.
Proof.
  intro H. unfold count_Q. rewrite Nat2Z.inj_sub by exact H.
  rewrite inject_Z_sub. reflexivity.
Qed.

(** The degrees of freedom that scipy computes are those of Welch and
    Satterthwaite whenever the standard error is not zero. *)
Lemma welch_df_formula (xa xb : list Q) :
  (2 <= List.length xa)%nat -> (2 <= List.length xb)%nat ->
  ~ welch_se2 xa xb == 0 ->
  welch_df (Association.variance xa / count_Q xa)
           (Association.variance xb / count_Q xb)
           (List.length xa) (List.length xb)
  == welch_satterthwaite xa xb.
Proof.
  intros Ha Hb Hse. unfold welch_df, welch_satterthwaite, welch_se2 in *. cbv zeta.
  assert (Hna : xa <> []) by (intro E; rewrite E in Ha; cbn in Ha; lia).
  assert (Hnb : xb <> []) by (intro E; rewrite E in Hb; cbn in Hb; lia).
  pose proof (variance_nonneg xa) as Va. pose proof (variance_nonneg xb) as Vb.
  pose proof (count_Q_pos xa Hna) as Ca. pose proof (count_Q_pos xb Hnb) as Cb.
  assert (A0 : 0 <= Association.variance xa / count_Q xa)
    by (apply Qle_shift_div_l; [exact Ca|lra]).
  assert (B0 : 0 <= Association.variance xb / count_Q xb)
    by (apply Qle_shift_div_l; [exact Cb|lra]).
  set (a := Association.variance xa / count_Q xa) in *.
  set (b := Association.variance xb / count_Q xb) in *.
  pose proof (count_Q_pred xa ltac:(lia)) as Eda.
  pose proof (count_Q_pred xb ltac:(lia)) as Edb.
  assert (Da : 0 < count_Q xa - 1).
  { unfold count_Q. change 1 with (inject_Z 1). rewrite <- inject_Z_sub.
    change 0 with (inject_Z 0). rewrite <- Zlt_Qlt. lia. }
  assert (Db : 0 < count_Q xb - 1).
  { unfold count_Q. change 1 with (inject_Z 1). rewrite <- inject_Z_sub.
    change 0 with (inject_Z 0). rewrite <- Zlt_Qlt. lia. }
  set (da := count_Q xa - 1) in *. set (db := count_Q xb - 1) in *.
  set (na := inject_Z (Z.of_nat (List.length xa - 1))) in *.
  set (nb := inject_Z (Z.of_nat (List.length xb - 1))) in *.
  clearbody a b da db na nb.
  assert (Ta : 0 <= a * a / da)
    by (apply Qle_shift_div_l; [exact Da|]; pose proof (Qsquare_nonneg a); lra).
  assert (Tb : 0 <= b * b / db)
    by (apply Qle_shift_div_l; [exact Db|]; pose proof (Qsquare_nonneg b); lra).
  assert (Hden : ~ a * a / na + b * b / nb == 0).
  { rewrite Eda, Edb. intro Hz.
    assert (Za : a * a / da == 0) by lra. assert (Zb : b * b / db == 0) by lra.
    assert (Ea : a * a == 0).
    { assert (E : a * a == a * a / da * da) by (field; lra). rewrite E, Za. ring. }
    assert (Eb : b * b == 0).
    { assert (E : b * b == b * b / db * db) by (field; lra). rewrite E, Zb. ring. }
    apply Qsquare_zero in Ea. apply Qsquare_zero in Eb. apply Hse. lra. }
  destruct (Qeq_bool (a * a / na + b * b / nb) 0) eqn:E.
  - apply Qeq_bool_iff in E. contradiction.
  - assert (Pa : a ^ 2 == a * a) by (simpl; ring).
    assert (Pb : b ^ 2 == b * b) by (simpl; ring).
    assert (Pab : (a + b) ^ 2 == (a + b) * (a + b)) by (simpl; ring).
    rewrite Pa, Pb, Pab, Eda, Edb. reflexivity.
Qed.

(** C7.  The test compares the amounts of the rows with IsSmoker = 1 with
    those of the rows with IsSmoker = 0: with flags 0 and 1 only, the two
    groups split the amounts.  If either group has fewer than two
    observations, statistic and p-value are NaN.  With at least two present
    amounts in each group and a non-zero standard error, the statistic is
    Welch's, the difference of the means over the root of the sum of the
    variances over the sizes, and the p-value is the two-sided Student
    p-value of that statistic at the Welch-Satterthwaite degrees of
    freedom. *)
Theorem welch_test_of_smokers (claims : list claim) :
  (Forall binary_flag claims ->
   Permutation (amounts claims) (sm claims ++ ns claims)) /\
  ((List.length (sm claims) < 2)%nat \/ (List.length (ns claims) < 2)%nat ->
   t_stat claims = NaN /\ p_val claims = p_nan) /\
  (forall xa xb : list Q,
     sm claims = map Some xa -> ns claims = map Some xb ->
     (2 <= List.length xa)%nat -> (2 <= List.length xb)%nat ->
     ~ welch_se2 xa xb == 0 ->
     t_stat claims
     = Finite (Q2R (mean xa - mean xb) / sqrt (Q2R (welch_se2 xa xb)))%R /\
     exists df : Q,
       p_val claims
       = p_student_two_sided df
           (Q2R (mean xa - mean xb) / sqrt (Q2R (welch_se2 xa xb)))%R /\
       df == welch_satterthwaite xa xb).
Proof.
  split; [apply groups_partition|]. split.
  - intro Hsmall. unfold t_stat, p_val.
    rewrite (ttest_ind_small _ _ Hsmall). split; reflexivity.
  - intros xa xb Hsm Hns Ha Hb Hse. unfold t_stat, p_val.
    rewrite Hsm, Hns, (ttest_ind_welch xa xb Ha Hb Hse). cbn [fst snd].
    split; [reflexivity|]. eexists. split; [reflexivity|].
    apply welch_df_formula; assumption.
Qed.

Lemma welch_test_of_smokers_witness :
  Permutation (amounts lone_smoker) (sm lone_smoker ++ ns lone_smoker) /\
  (t_stat lone_smoker = NaN /\ p_val lone_smoker = p_nan) /\
  (t_stat two_and_two
   = Finite (Q2R (mean smokers_amounts - mean nonsmokers_amounts)
             / sqrt (Q2R (welch_se2 smokers_amounts nonsmokers_amounts)))%R /\
   exists df : Q,
     p_val two_and_two
     = p_student_two_sided df
         (Q2R (mean smokers_amounts - mean nonsmokers_amounts)
          / sqrt (Q2R (welch_se2 smokers_amounts nonsmokers_amounts)))%R /\
     df == 841 # 641).
Proof.
  split; [|split].
  - apply (proj1 (welch_test_of_smokers lone_smoker)).
    repeat constructor; unfold binary_flag; simpl;
      ((left; reflexivity) || (right; reflexivity)).
  - apply (proj1 (proj2 (welch_test_of_smokers lone_smoker))).
    left. simpl. lia.
  - destruct (proj2 (proj2 (welch_test_of_smokers two_and_two))
                smokers_amounts nonsmokers_amounts) as [Ht [df [Hp Hdf]]].
    + reflexivity.
    + reflexivity.
    + simpl. lia.
    + simpl. lia.
    + intro H. vm_compute in H. discriminate.
    + split; [exact Ht|]. exists df. split; [exact Hp|].
      rewrite Hdf. vm_compute. reflexivity.
Defined.

End TestsFacts.

(** ** Step 6 b): ANOVA by department *)
Section AnovaFacts.

Import Tests Pipeline.

Lemma same_label_refl (d : label) : same_label d d = true.
Proof.
  destruct d as [s|q|]; cbn; [apply String.eqb_refl| |reflexivity].
  apply Qeq_bool_iff. reflexivity.
Qed.

Lemma unique_subset (l : list label) (y : label) : In y (unique l) -> In y l.
Proof.
  induction l as [|x l IH]; [easy|]. cbn [unique]. intros [->|H]; [now left|].
  right. apply IH. apply filter_In in H. tauto.
Qed.

(** A column with one value has one distinct value. *)
Lemma unique_constant (l : list label) (d : label) :
  (forall x, In x l -> x = d) -> (List.length (unique l) <= 1)%nat.
Proof.
  intro H. destruct l as [|x l]; simpl; [lia|].
  rewrite filter_none; [simpl; lia|].
  intros y Hy. apply unique_subset in Hy.
  rewrite (H x) by (left; reflexivity).
  rewrite (H y) by (right; exact Hy).
  rewrite same_label_refl. reflexivity.
Qed.

Lemma binary_insert_perm (l : list label) (x : label) :
  Permutation (x :: l) (binary_insert l x).
Proof.
  unfold binary_insert.
  set (place := bisect (List.length l) x l 0 (List.length l)).
  rewrite <- (firstn_skipn place l) at 1. apply Permutation_middle.
Qed.

Lemma fold_binary_insert_perm (rest run : list label) :
  Permutation (run ++ rest) (fold_left binary_insert rest run).
Proof.
  revert run. induction rest as [|x rest IH]; intro run; cbn [fold_left].
  - rewrite app_nil_r. reflexivity.
  - rewrite <- IH. rewrite <- binary_insert_perm.
    symmetry. apply Permutation_middle.
Qed.

Lemma binarysort_perm (l : list label) : Permutation l (binarysort l).
Proof.
  unfold binarysort. destruct (count_run l) as [n descending].
  rewrite <- fold_binary_insert_perm.
  rewrite <- (firstn_skipn n l) at 1.
  apply Permutation_app_tail.
  destruct descending; [apply Permutation_rev|reflexivity].
Qed.

(** When the sort returns, it returns the elements it was given. *)
Lemma sorted_perm (l names : list label) :
  sorted l = inr names -> Permutation l names.
Proof.
  unfold sorted. destruct l as [|first rest].
  - intro H. injection H as <-. constructor.
  - destruct (first_of_other_type (is_text first) rest); [discriminate|].
    intro H. injection H as <-. apply binarysort_perm.
Qed.

Lemma sorted_short (l : list label) :
  (List.length l <= 1)%nat -> sorted l = inr l.
Proof.
  destruct l as [|x [|y l]]; cbn [List.length]; intro H; [reflexivity|reflexivity|lia].
Qed.

Lemma by_department_length (names : list label) (claims : list claim) :
  List.length (by_department names claims) = List.length names.
Proof. unfold by_department. apply length_map. Qed.

Lemma f_oneway_one_sample (samples : list (list cell)) :
  (List.length samples < 2)%nat ->
  f_oneway samples = inl (TypeError (too_few_inputs (List.length samples))).
Proof.
  intro H. unfold f_oneway.
  destruct (Nat.ltb_spec (List.length samples) 2) as [_|Hge]; [reflexivity|lia].
Qed.

Lemma f_oneway_defined (samples : list (list cell)) :
  (2 <= List.length samples)%nat -> exists res, f_oneway samples = inr res.
Proof.
  intro H. unfold f_oneway.
  destruct (Nat.ltb_spec (List.length samples) 2) as [Hlt|_]; [lia|].
  repeat match goal with
         | |- exists res, (if ?c then _ else _) = inr res => destruct c
         end; eexists; reflexivity.
Qed.

(** The run stops at the first write whose text cannot be computed. *)
Lemma execute_aborts (lib : library) (pre post : list action) (a : action)
    (claims : list claim) (revenue : list revenue_row) (e : raised) (fs : files) :
  produce a lib claims revenue = inl e ->
  let o := execute lib (pre ++ a :: post) claims revenue fs in
  exit o <> Finished /\
  (forall p, In p (written_paths o) -> In p (map target pre)).
Proof.
  intro Ha. revert fs. induction pre as [|b pre IH]; intro fs; cbn [app execute].
  - rewrite Ha. split; [discriminate|]. intros p [].
  - destruct (produce b lib claims revenue) as [e'|text].
    + split; [discriminate|]. intros p [].
    + destruct (IH (write_file (target b) text fs)) as [H1 H2].
      split; [exact H1|]. unfold written_paths in *. cbn [written map fst].
      intros p [Hp|Hp]; [left; exact Hp|right; apply H2; exact Hp].
Qed.

(** C8, as amended.  When every claim has the same department, be it a text,
    a number or missing, line 57 has at most one name to sort,
    [stats.f_oneway] receives fewer than two samples and raises TypeError: the
    run ends no later than that step and anova_by_department.txt is not
    written. *)
Theorem anova_needs_two_departments (claims : list claim) (d : label) :
  (forall r, In r claims -> Department r = d) ->
  exists names : list label,
    dept_names claims = inr names /\
    (List.length names <= 1)%nat /\
    anova claims = inl (TypeError (too_few_inputs (List.length names))) /\
    forall (lib : library) (revenue : list revenue_row) (fs : files),
      exit (execute lib program claims revenue fs) <> Finished /\
      ~ In anova_txt (written_paths (execute lib program claims revenue fs)).
Proof.
  intro Hd.
  assert (Hlen : (List.length (unique (map Department claims)) <= 1)%nat).
  { apply (unique_constant _ d). intros x Hx.
    apply in_map_iff in Hx. destruct Hx as [r [<- Hr]]. apply Hd. exact Hr. }
  assert (Hnames : dept_names claims = inr (unique (map Department claims))).
  { unfold dept_names. apply sorted_short. exact Hlen. }
  set (names := unique (map Department claims)) in *.
  assert (Hraise : anova claims
                   = inl (TypeError (too_few_inputs (List.length names)))).
  { unfold anova, groups. rewrite Hnames. cbn [bind].
    rewrite <- (by_department_length names claims).
    apply f_oneway_one_sample. rewrite by_department_length. lia. }
  exists names. split; [exact Hnames|]. split; [exact Hlen|].
  split; [exact Hraise|]. intros lib revenue fs.
  pose proof (execute_aborts lib (firstn 9 program) (skipn 10 program)
                (nth 9 program (mkAction EmptyString (fun _ _ _ => inr EmptyString)))
                claims revenue
                (TypeError (too_few_inputs (List.length names))) fs) as H.
  change (firstn 9 program ++ _ :: skipn 10 program) with program in H.
  destruct H as [H1 H2].
  - cbn [nth program produce]. rewrite Hraise. reflexivity.
  - split; [exact H1|]. intro Hin. apply H2 in Hin.
    cbn in Hin. repeat (destruct Hin as [Hin|Hin]; [discriminate Hin|]). exact Hin.
Qed.

Lemma anova_needs_two_departments_witness :
  exists names : list label,
    dept_names one_department = inr names /\
    (List.length names <= 1)%nat /\
    anova one_department = inl (TypeError (too_few_inputs (List.length names))) /\
    forall (lib : library) (revenue : list revenue_row) (fs : files),
      exit (execute lib program one_department revenue fs) <> Finished /\
      ~ In anova_txt (written_paths (execute lib program one_department revenue fs)).
Proof.
  apply (anova_needs_two_departments one_department (Text "Cardiology")).
  intros r [<-|[<-|[]]]; reflexivity.
Defined.

(** C8, as stated, fails on two claims of one department: the ANOVA step
    raises and the run of the script ends at it. *)
Lemma single_department_aborts_run :
  dept_names one_department = inr [Text "Cardiology"] /\
  anova one_department
  = inl (TypeError "at least two inputs are required; got 1.") /\
  exit (run (quiet_library one_department []) inputs_only)
  = Aborted (TypeError "at least two inputs are required; got 1.") /\
  ~ In anova_txt (written_paths (run (quiet_library one_department []) inputs_only)).
Proof.
  split; [reflexivity|]. split; [reflexivity|]. split; [reflexivity|].
  cbn. intro H. repeat (destruct H as [H|H]; [discriminate H|]). exact H.
Qed.

End AnovaFacts.

(** ** The script as a whole *)
Section RunFacts.

Import Pipeline.

Lemma write_file_other (path text : string) (fs : files) (p : string) :
  p <> path -> write_file path text fs p = fs p.
Proof.
  intro H. unfold write_file.
  destruct (String.eqb_spec p path) as [E|_]; [contradiction|reflexivity].
Qed.

Lemma write_file_same (path text : string) (fs : files) :
  write_file path text fs path = Some text.
Proof. unfold write_file. now rewrite String.eqb_refl. Qed.

Lemma execute_paths (lib : library) (acts : list action)
    (claims : list claim) (revenue : list revenue_row) (fs : files) (p : string) :
  In p (written_paths (execute lib acts claims revenue fs)) -> In p (map target acts).
Proof.
  revert fs. induction acts as [|a acts IH]; intro fs; cbn [execute].
  - intros [].
  - destruct (produce a lib claims revenue) as [e|text]; [intros []|].
    unfold written_paths in *. cbn [written map fst].
    intros [H|H]; [left; exact H|right; apply (IH _ H)].
Qed.

(** A file that is not written is left as it was. *)
Lemma execute_untouched (lib : library) (acts : list action)
    (claims : list claim) (revenue : list revenue_row) (fs : files) (p : string) :
  ~ In p (written_paths (execute lib acts claims revenue fs)) ->
  final (execute lib acts claims revenue fs) p = fs p.
Proof.
  revert fs. induction acts as [|a acts IH]; intro fs; cbn [execute].
  - reflexivity.
  - destruct (produce a lib claims revenue) as [e|text]; [reflexivity|].
    unfold written_paths in *. cbn [written final map fst].
    intro H. rewrite IH by (intro Hin; apply H; right; exact Hin).
    apply write_file_other. intro E. apply H. left. symmetry. exact E.
Qed.

Lemma inputs_are_not_targets :
  ~ In claims_csv (map target program) /\ ~ In revenue_csv (map target program).
Proof.
  split; cbn; intro H; repeat (destruct H as [H|H]; [discriminate H|]); exact H.
Qed.

Lemma run_paths (lib : library) (fs : files) (p : string) :
  In p (written_paths (run lib fs)) -> In p (map target program).
Proof.
  unfold run.
  destruct (load (read_csv_claims lib) claims_csv fs) as [e|claims]; [intros []|].
  destruct (load (read_csv_revenue lib) revenue_csv fs) as [e|revenue]; [intros []|].
  apply execute_paths.
Qed.

Lemma run_untouched (lib : library) (fs : files) (p : string) :
  ~ In p (map target program) -> final (run lib fs) p = fs p.
Proof.
  intro H. unfold run.
  destruct (load (read_csv_claims lib) claims_csv fs) as [e|claims]; [reflexivity|].
  destruct (load (read_csv_revenue lib) revenue_csv fs) as [e|revenue]; [reflexivity|].
  apply execute_untouched. intro Hin. apply H. apply (execute_paths _ _ _ _ _ _ Hin).
Qed.

End RunFacts.

(** ** Step 6 c): chi-square test *)
Section ChiSquareFacts.

Import Tests.
Open Scope Q_scope.

Lemma Zsum_nonneg (l : list Z) :
  Forall (fun x => (0 <= x)%Z) l -> (0 <= Zsum l)%Z.
Proof. induction 1; unfold Zsum in *; simpl; lia. Qed.

Lemma Qsum_nonneg (l : list Q) : Forall (fun x => 0 <= x) l -> 0 <= Qsum l.
Proof.
  induction 1 as [|x l Hx _ IH]; unfold Qsum in *; cbn [fold_right];
    [apply Qle_refl|lra].
Qed.

Lemma counts_nonneg (observed : list (list Z)) :
  existsb (existsb (fun o => (o <? 0)%Z)) observed = false ->
  Forall (Forall (fun o => (0 <= o)%Z)) observed.
Proof.
  intro H. apply Forall_forall. intros row Hrow.
  apply Forall_forall. intros o Ho.
  destruct (Z.ltb_spec o 0) as [Hneg|Hpos]; [|exact Hpos].
  exfalso. assert (Ht : existsb (existsb (fun o => (o <? 0)%Z)) observed = true).
  { apply existsb_exists. exists row. split; [exact Hrow|].
    apply existsb_exists. exists o. split; [exact Ho|].
    apply Z.ltb_lt. exact Hneg. }
  congruence.
Qed.

Lemma row_totals_nonneg (observed : list (list Z)) :
  Forall (Forall (fun o => (0 <= o)%Z)) observed ->
  Forall (fun x => (0 <= x)%Z) (row_totals observed).
Proof.
  intro H. unfold row_totals. apply Forall_forall. intros x Hx.
  apply in_map_iff in Hx. destruct Hx as [row [<- Hrow]].
  apply Zsum_nonneg. rewrite Forall_forall in H. apply H. exact Hrow.
Qed.

Lemma col_totals_nonneg (observed : list (list Z)) :
  Forall (Forall (fun o => (0 <= o)%Z)) observed ->
  Forall (fun x => (0 <= x)%Z) (col_totals observed).
Proof.
  intro H. unfold col_totals. apply Forall_forall. intros x Hx.
  apply in_map_iff in Hx. destruct Hx as [j [<- _]].
  apply Zsum_nonneg. apply Forall_forall. intros y Hy.
  apply in_map_iff in Hy. destruct Hy as [row [<- Hrow]].
  rewrite Forall_forall in H. specialize (H row Hrow).
  destruct (Nat.lt_ge_cases j (List.length row)) as [Hj|Hj].
  - rewrite Forall_forall in H. apply H. apply nth_In. exact Hj.
  - rewrite nth_overflow by exact Hj. lia.
Qed.

Lemma expected_nonneg (observed : list (list Z)) :
  Forall (Forall (fun o => (0 <= o)%Z)) observed ->
  (0 < grand_total observed)%Z ->
  Forall (Forall (fun e => 0 <= e)) (expected_freq observed).
Proof.
  intros H Htotal. unfold expected_freq.
  pose proof (row_totals_nonneg observed H) as Hr.
  pose proof (col_totals_nonneg observed H) as Hc.
  rewrite Forall_forall in Hr, Hc.
  apply Forall_forall. intros row Hrow.
  apply in_map_iff in Hrow. destruct Hrow as [rt [<- Hrt]].
  apply Forall_forall. intros e He.
  apply in_map_iff in He. destruct He as [ct [<- Hct]].
  apply Qle_shift_div_l.
  - change 0 with (inject_Z 0). rewrite <- Zlt_Qlt. exact Htotal.
  - rewrite Qmult_0_l. apply Qmult_le_0_compat;
      change 0 with (inject_Z 0); rewrite <- Zle_Qle; auto.
Qed.

Lemma expected_nonzero (expected : list (list Q)) :
  existsb (existsb (fun e => Qeq_bool e 0)) expected = false ->
  forall e, In e (List.concat expected) -> ~ e == 0.
Proof.
  intros H e He Hz. apply in_concat in He. destruct He as [row [Hrow He]].
  assert (Ht : existsb (existsb (fun e => Qeq_bool e 0)) expected = true).
  { apply existsb_exists. exists row. split; [exact Hrow|].
    apply existsb_exists. exists e. split; [exact He|].
    apply Qeq_bool_iff. exact Hz. }
  congruence.
Qed.

Lemma pearson_nonneg (observed expected : list (list Q)) :
  (forall e, In e (List.concat expected) -> 0 < e) ->
  0 <= pearson observed expected.
Proof.
  intro H. unfold pearson. apply Qsum_nonneg. apply Forall_forall.
  intros x Hx. apply in_map_iff in Hx. destruct Hx as [[o e] [<- Hoe]].
  cbn [fst snd]. apply in_combine_r in Hoe.
  apply Qle_shift_div_l; [apply H; exact Hoe|].
  rewrite Qmult_0_l. unfold square. apply Qsquare_nonneg.
Qed.

Lemma degrees_of_freedom_product (t : list (list Z)) :
  degrees_of_freedom t
  = ((Z.of_nat (nrows t) - 1) * (Z.of_nat (ncols t) - 1))%Z.
Proof. unfold degrees_of_freedom. rewrite Nat2Z.inj_mul. ring. Qed.

(** The part of C6 that the model can state.  Whenever [chi2_contingency]
    returns, the degrees of freedom are (rows - 1) * (columns - 1) and a
    finite statistic is not negative. *)
Lemma chi2_contingency_returns (observed : list (list Z)) (res : chi2_result) :
  chi2_contingency observed = inr res ->
  dof res = ((Z.of_nat (nrows observed) - 1) * (Z.of_nat (ncols observed) - 1))%Z /\
  (forall x : Q, chi2 res = Finite x -> 0 <= x).
Proof.
  unfold chi2_contingency.
  destruct (existsb (existsb (fun o => (o <? 0)%Z)) observed) eqn:Hneg; [discriminate|].
  destruct (nrows observed * ncols observed =? 0)%nat; [discriminate|].
  pose proof (counts_nonneg observed Hneg) as Hobs.
  rewrite <- degrees_of_freedom_product.
  destruct (Z.eqb_spec (grand_total observed) 0) as [Hz|Hnz].
  - destruct (degrees_of_freedom observed =? 0)%Z; intro H; injection H as <-;
      cbn [dof chi2]; (split; [reflexivity|]); intros x Hx;
      [injection Hx as <-; apply Qle_refl|discriminate].
  - destruct (existsb (existsb (fun e => Qeq_bool e 0)) (expected_freq observed)) eqn:Hexp;
      [discriminate|].
    assert (Htotal : (0 < grand_total observed)%Z).
    { pose proof (Zsum_nonneg _ (row_totals_nonneg observed Hobs)).
      unfold grand_total in *. lia. }
    assert (Hpos : forall e, In e (List.concat (expected_freq observed)) -> 0 < e).
    { intros e He.
      pose proof (expected_nonzero _ Hexp e He) as Hne.
      pose proof (expected_nonneg observed Hobs Htotal) as Hnn.
      apply in_concat in He. destruct He as [row [Hrow He]].
      rewrite Forall_forall in Hnn. specialize (Hnn row Hrow).
      rewrite Forall_forall in Hnn. specialize (Hnn e He).
      destruct (Qlt_le_dec 0 e) as [Hlt|Hle]; [exact Hlt|].
      exfalso. apply Hne. apply Qle_antisym; assumption. }
    destruct (degrees_of_freedom observed =? 0)%Z.
    + intro H. injection H as <-. cbn [dof chi2]. split; [reflexivity|].
      intros x Hx. injection Hx as <-. apply Qle_refl.
    + intro H. injection H as <-. cbn [dof chi2]. split; [reflexivity|].
      intros x Hx. injection Hx as <-. apply pearson_nonneg. exact Hpos.
Qed.

End ChiSquareFacts.

(** ** Step 2, further: what the frequency table counts *)
Section FrequencyTable.

Import Frequency.
Open Scope Q_scope.

Lemma Qmax_upper (x y : Q) : x <= Qmax x y /\ y <= Qmax x y.
Proof.
  unfold Qmax. destruct (Qle_bool x y) eqn:E.
  - apply Qle_bool_iff in E. split; [exact E|apply Qle_refl].
  - split; [apply Qle_refl|].
    destruct (Qlt_le_dec y x) as [H|H]; [apply Qlt_le_weak; exact H|].
    apply Qle_bool_iff in H. congruence.
Qed.

Lemma fold_max_upper (rest : list Q) (q : Q) :
  forall x, In x (q :: rest) -> x <= fold_left Qmax rest q.
Proof.
  revert q. induction rest as [|y rest IH]; intros q x Hx.
  - destruct Hx as [<-|[]]. apply Qle_refl.
  - cbn [fold_left]. destruct (Qmax_upper q y) as [Hq Hy].
    destruct Hx as [<-|[<-|Hx]].
    + eapply Qle_trans; [exact Hq|]. apply IH. left. reflexivity.
    + eapply Qle_trans; [exact Hy|]. apply IH. left. reflexivity.
    + apply IH. right. exact Hx.
Qed.

(** [Series.max()] is an upper bound of the present values. *)
Lemma max_upper (col : list cell) (m : Q) :
  max_ col = Some m -> forall x, In x (dropna col) -> x <= m.
Proof.
  unfold max_. destruct (dropna col) as [|q rest]; [discriminate|].
  intro H. injection H as <-. apply fold_max_upper.
Qed.

Lemma count_codes_step (n : nat) (codes : list (option nat)) :
  List.length (filter (is_code (S n)) codes)
  = (List.length (filter (is_code n) codes) + List.length (filter (in_bin n) codes))%nat.
Proof.
  induction codes as [|[j|] codes IH]; cbn [filter is_code in_bin]; [reflexivity| |exact IH].
  destruct (Nat.ltb_spec j (S n)), (Nat.ltb_spec j n), (Nat.eqb_spec n j);
    cbn [List.length]; lia.
Qed.

(** The frequencies add up to the number of values that received a bin. *)
Lemma freq_total (n : nat) (codes : list (option nat)) :
  Zsum (freq n codes) = Z.of_nat (List.length (filter (is_code n) codes)).
Proof.
  induction n as [|n IH].
  - cbn. induction codes as [|[j|] codes IHc]; cbn; auto.
  - unfold freq in *. rewrite seq_S, map_app. cbn [map Nat.add].
    unfold Zsum in *. rewrite fold_right_app. cbn [fold_right].
    rewrite count_codes_step.
    assert (Hshift : forall (l : list Z) (z : Z),
               fold_right Z.add z l = (fold_right Z.add 0%Z l + z)%Z).
    { induction l as [|a l IHl]; intro z; cbn; [lia|]. rewrite IHl. lia. }
    rewrite Hshift, IH. lia.
Qed.

(** The table of a column whose largest present amount is [m >= 0]. *)
Lemma freq_df_of_table (claims : list claim) (m : Q) :
  max_ (amounts claims) = Some m ->
  0 <= m ->
  exists k : nat,
    (1 <= k)%nat /\
    m < inject_Z (400 * Z.of_nat k) /\
    let f := freq k (map (cut_one (edges_through k)) (amounts claims)) in
    let rs := map (fun x => Render.rint (inject_Z x / inject_Z (Zsum f) * 100 * 100)) f in
    (0 < Zsum f)%Z /\
    freq_df claims
    = inr (mkFreq (labels (edges_through k)) f
                  (map Some (map cents rs))
                  (map Some (map cents (running 0 rs)))).
Proof.
  intros Hmax Hm.
  destruct (arange_edges m Hm) as [k [Hk [Hk1 [Hlo [Hhi _]]]]].
  assert (Hbins : bins claims = inr (edges_through k)).
  { rewrite (max_present claims m Hmax), Hk. reflexivity. }
  assert (Hmk : m < inject_Z (400 * Z.of_nat k)) by lra.
  destruct (binned k m Hk1 Hm Hmk) as [i [Hi Hcode]].
  exists k. split; [exact Hk1|]. split; [exact Hmk|].
  intros f rs.
  assert (HT : (0 < Zsum f)%Z).
  { apply (freq_total_pos k _ i Hi). rewrite <- Hcode.
    apply in_map. apply max_in_column. exact Hmax. }
  split; [exact HT|]. apply (freq_df_value claims k Hbins). exact HT.
Qed.

Lemma codes_of_column (k : nat) (col : list cell) :
  (forall x, In x (dropna col) -> x < inject_Z (400 * Z.of_nat k)) ->
  (1 <= k)%nat ->
  List.length (filter (is_code k) (map (cut_one (edges_through k)) col))
  = List.length (filter (Qle_bool 0) (dropna col)).
Proof.
  intros Hbound Hk. induction col as [|[x|] col IH].
  - reflexivity.
  - cbn [map filter dropna].
    assert (IH' : List.length (filter (is_code k) (map (cut_one (edges_through k)) col))
                  = List.length (filter (Qle_bool 0) (dropna col))).
    { apply IH. intros y Hy. apply Hbound. right. exact Hy. }
    assert (Hx : x < inject_Z (400 * Z.of_nat k)) by (apply Hbound; left; reflexivity).
    destruct (Qle_bool 0 x) eqn:E.
    + apply Qle_bool_iff in E.
      destruct (binned k x Hk E Hx) as [i [Hi Hcode]].
      rewrite Hcode. cbn [is_code].
      destruct (Nat.ltb_spec i k) as [_|Hge]; [|lia].
      cbn [List.length]. now rewrite IH'.
    + assert (Hneg : x < 0).
      { destruct (Qlt_le_dec x 0) as [H|H]; [exact H|].
        apply Qle_bool_iff in H. congruence. }
      destruct (cut_one (edges_through k) (Some x)) as [i|] eqn:Hcode.
      * exfalso. apply cut_one_edges_through in Hcode.
        destruct Hcode as [_ [[Hlo _]|[_ Hz]]].
        -- assert (H0 : 0 <= inject_Z (400 * Z.of_nat i)).
           { change 0 with (inject_Z 0). rewrite <- Zle_Qle. lia. }
           lra.
        -- lra.
      * cbn [is_code]. exact IH'.
  - cbn [map filter dropna]. change (cut_one (edges_through k) None) with (@None nat).
    cbn [is_code]. apply IH. exact Hbound.
Qed.

Lemma rint_upper (q : Q) (n : Z) : q <= inject_Z n -> (Render.rint q <= n)%Z.
Proof.
  intro H. destruct (rint_error q) as [Hlo _].
  assert (Hlt : inject_Z (Render.rint q) < inject_Z (n + 1)).
  { rewrite inject_Z_plus. change (inject_Z 1) with 1. lra. }
  apply inject_Z_lt_inv in Hlt. lia.
Qed.

Lemma percent_bounds (x T : Z) :
  (0 <= x <= T)%Z -> (0 < T)%Z ->
  0 <= inject_Z x / inject_Z T * 100 * 100 /\
  inject_Z x / inject_Z T * 100 * 100 <= inject_Z 10000.
Proof.
  intros Hx HT.
  assert (HTq : 0 < inject_Z T) by (change 0 with (inject_Z 0); rewrite <- Zlt_Qlt; exact HT).
  assert (Hx0 : 0 <= inject_Z x) by (change 0 with (inject_Z 0); rewrite <- Zle_Qle; lia).
  assert (HxT : inject_Z x <= inject_Z T) by (rewrite <- Zle_Qle; lia).
  assert (Hlo : 0 <= inject_Z x / inject_Z T).
  { apply Qle_shift_div_l; [exact HTq|lra]. }
  assert (Hhi : inject_Z x / inject_Z T <= 1).
  { apply Qle_shift_div_r; [exact HTq|lra]. }
  change (inject_Z 10000) with 10000. split; lra.
Qed.

(** X1.  When some amount is present and the largest is not negative, the
    frequency table has one row per label; its frequencies are not negative
    and add up to the number of present amounts that are not negative, so a
    missing or negative amount is counted in no bin; and every relative
    percentage is a number between 0 and 100. *)
Theorem frequency_table_counts_amounts (claims : list claim) (m : Q) :
  max_ (amounts claims) = Some m ->
  0 <= m ->
  exists t : freq_table,
    freq_df claims = inr t /\
    List.length (Frequency t) = List.length (Range t) /\
    List.length (Relative t) = List.length (Range t) /\
    List.length (Cumulative t) = List.length (Range t) /\
    Forall (fun x => (0 <= x)%Z) (Frequency t) /\
    Zsum (Frequency t)
    = Z.of_nat (List.length (filter (Qle_bool 0) (dropna (amounts claims)))) /\
    Forall (fun c => exists r : Q, c = Some r /\ 0 <= r /\ r <= 100) (Relative t).
Proof.
  intros Hmax Hm.
  destruct (freq_df_of_table claims m Hmax Hm) as [k [Hk [Hmk H]]].
  cbv zeta in H. destruct H as [HT Hdf].
  eexists. split; [exact Hdf|]. cbn [Frequency Range Relative Cumulative].
  rewrite labels_length, edges_through_length, !length_map, running_length,
    length_map, freq_length.
  replace (S k - 1)%nat with k by lia.
  split; [reflexivity|]. split; [reflexivity|]. split; [reflexivity|].
  split; [apply freq_nonneg|]. split.
  - rewrite freq_total. f_equal. apply codes_of_column; [|exact Hk].
    intros x Hx. eapply Qle_lt_trans; [|exact Hmk].
    apply (max_upper _ _ Hmax). exact Hx.
  - apply Forall_forall. intros c Hc.
    apply in_map_iff in Hc. destruct Hc as [r [<- Hr]].
    apply in_map_iff in Hr. destruct Hr as [z [<- Hz]].
    apply in_map_iff in Hz. destruct Hz as [x [<- Hx]].
    set (f := freq k (map (cut_one (edges_through k)) (amounts claims))) in *.
    assert (Hx0 : (0 <= x)%Z).
    { pose proof (freq_nonneg k (map (cut_one (edges_through k)) (amounts claims))) as Hf.
      rewrite Forall_forall in Hf. apply Hf. exact Hx. }
    assert (HxT : (x <= Zsum f)%Z).
    { apply Zsum_member; [apply freq_nonneg|exact Hx]. }
    destruct (percent_bounds x (Zsum f) (conj Hx0 HxT) HT) as [Hlo Hhi].
    pose proof (rint_nonneg _ Hlo) as H0.
    pose proof (rint_upper _ _ Hhi) as H1.
    eexists. split; [reflexivity|]. unfold cents. split.
    + apply Qle_shift_div_l; [reflexivity|].
      rewrite Qmult_0_l. change 0 with (inject_Z 0). rewrite <- Zle_Qle. exact H0.
    + apply Qle_shift_div_r; [reflexivity|].
      change (100 * 100) with (inject_Z 10000). rewrite <- Zle_Qle. exact H1.
Qed.

Lemma frequency_table_counts_amounts_witness :
  exists t : freq_table,
    freq_df Probability.with_missing = inr t /\
    List.length (Frequency t) = List.length (Range t) /\
    List.length (Relative t) = List.length (Range t) /\
    List.length (Cumulative t) = List.length (Range t) /\
    Forall (fun x => (0 <= x)%Z) (Frequency t) /\
    Zsum (Frequency t)
    = Z.of_nat (List.length (filter (Qle_bool 0)
                               (dropna (amounts Probability.with_missing)))) /\
    Forall (fun c => exists r : Q, c = Some r /\ 0 <= r /\ r <= 100) (Relative t).
Proof.
  apply (frequency_table_counts_amounts Probability.with_missing 3000).
  - reflexivity.
  - unfold Qle. simpl. lia.
Defined.

End FrequencyTable.

(** ** Step 2, further: labels against bins *)
Section FrequencyLabels.

Import Frequency.
Open Scope Q_scope.

Lemma int_text_inject (z : Z) : int_text (inject_Z z) = Render.digits z.
Proof. unfold int_text. now rewrite Qfloor_Z. Qed.

Lemma int_text_pred (z : Z) : int_text (inject_Z z - 1) = Render.digits (z - 1).
Proof.
  unfold int_text. f_equal. unfold Qfloor, Qminus, Qplus, Qopp, inject_Z.
  cbn [Qnum Qden]. rewrite Z.div_1_r. ring.
Qed.

Lemma labels_of_map (F : nat -> Q) (s k : nat) :
  labels (map F (seq s (S k)))
  = map (fun i => (int_text (F i) ++ "-" ++ int_text (F (S i) - 1))%string) (seq s k).
Proof.
  revert s. induction k as [|k IH]; intro s; [reflexivity|].
  change (seq s (S (S k))) with (s :: S s :: seq (S (S s)) k).
  change (seq s (S k)) with (s :: seq (S s) k).
  cbn [map labels]. f_equal.
  specialize (IH (S s)).
  change (seq (S s) (S k)) with (S s :: seq (S (S s)) k) in IH.
  cbn [map] in IH. exact IH.
Qed.

(** X2.  The label of bin [i] reads "400 i - 400 i + 399", yet the bin is
    closed on the right: the amount 400 (i + 1) is counted in bin [i],
    outside the range its label shows. *)
Theorem labels_end_below_upper_edge (k i : nat) :
  (i < k)%nat ->
  nth i (labels (edges_through k)) EmptyString
  = (Render.digits (400 * Z.of_nat i) ++ "-"
     ++ Render.digits (400 * Z.of_nat i + 399))%string /\
  cut_one (edges_through k) (Some (inject_Z (400 * Z.of_nat (S i)))) = Some i.
Proof.
  intro Hi. split.
  - unfold edges_through. rewrite labels_of_map.
    set (G := fun j => (int_text (inject_Z (400 * Z.of_nat j)) ++ "-"
                        ++ int_text (inject_Z (400 * Z.of_nat (S j)) - 1))%string).
    rewrite (nth_indep _ EmptyString (G 0%nat)) by (now rewrite length_map, length_seq).
    rewrite map_nth, seq_nth by exact Hi. unfold G. cbn [Nat.add].
    rewrite int_text_inject, int_text_pred. do 3 f_equal. lia.
  - apply cut_one_edges_through. split; [exact Hi|]. left. split.
    + rewrite <- Zlt_Qlt. lia.
    + apply Qle_refl.
Qed.

Lemma labels_end_below_upper_edge_witness :
  nth 0 (labels (edges_through 2)) EmptyString = "0-399"%string /\
  cut_one (edges_through 2) (Some 400) = Some 0%nat.
Proof.
  apply (labels_end_below_upper_edge 2 0). lia.
Defined.

End FrequencyLabels.

(** ** Step 2, further: a column without any amount *)
Section FrequencyWithoutAmounts.

Import Frequency Pipeline.

Lemma dropna_all_missing (claims : list claim) :
  (forall r, In r claims -> ClaimAmount r = None) -> dropna (amounts claims) = [].
Proof.
  unfold amounts. induction claims as [|r claims IH]; intro H; [reflexivity|].
  cbn [map]. rewrite (H r) by (left; reflexivity). cbn [dropna].
  apply IH. intros r' Hr'. apply H. right. exact Hr'.
Qed.

(** X3.  When no claim has an amount, as in an empty table, the largest
    amount is NaN and [np.arange] raises ValueError: the frequency step
    fails, the run ends there, and the only file it may have written is the
    table of descriptive statistics. *)
Theorem no_amount_ends_run_at_frequency_step (claims : list claim) :
  (forall r, In r claims -> ClaimAmount r = None) ->
  bins claims = inl (ValueError "arange: cannot compute length") /\
  freq_df claims = inl (ValueError "arange: cannot compute length") /\
  forall (lib : library) (revenue : list revenue_row) (fs : files),
    exit (execute lib program claims revenue fs) <> Finished /\
    forall p, In p (written_paths (execute lib program claims revenue fs)) ->
              p = "outputs/descriptive_stats_claims.csv"%string.
Proof.
  intro H.
  assert (Hbins : bins claims = inl (ValueError "arange: cannot compute length")).
  { unfold bins, max_. rewrite (dropna_all_missing claims H). reflexivity. }
  assert (Hdf : freq_df claims = inl (ValueError "arange: cannot compute length")).
  { unfold freq_df. rewrite Hbins. reflexivity. }
  split; [exact Hbins|]. split; [exact Hdf|]. intros lib revenue fs.
  pose proof (execute_aborts lib (firstn 1 program) (skipn 2 program)
                (nth 1 program (mkAction EmptyString (fun _ _ _ => inr EmptyString)))
                claims revenue (ValueError "arange: cannot compute length") fs) as Hrun.
  change (firstn 1 program ++ _ :: skipn 2 program) with program in Hrun.
  destruct Hrun as [H1 H2].
  - cbn [nth program produce]. rewrite Hdf. reflexivity.
  - split; [exact H1|]. intros p Hp. apply H2 in Hp.
    cbn in Hp. destruct Hp as [Hp|[]]. symmetry. exact Hp.
Qed.

Lemma no_amount_ends_run_at_frequency_step_witness :
  bins [Probability.missing_amount_row] = inl (ValueError "arange: cannot compute length") /\
  freq_df [Probability.missing_amount_row]
  = inl (ValueError "arange: cannot compute length") /\
  forall (lib : library) (revenue : list revenue_row) (fs : files),
    exit (execute lib program [Probability.missing_amount_row] revenue fs) <> Finished /\
    forall p, In p (written_paths
                      (execute lib program [Probability.missing_amount_row] revenue fs)) ->
              p = "outputs/descriptive_stats_claims.csv"%string.
Proof.
  apply (no_amount_ends_run_at_frequency_step [Probability.missing_amount_row]).
  intros r [<-|[]]. reflexivity.
Defined.

End FrequencyWithoutAmounts.

(** ** Steps 4 and 6 b), further: departments and their groups *)
Section DepartmentGroups.

Import Tests.

(** Splitting a list by two conditions that exclude each other. *)
Lemma filter_split {A : Type} (p q : A -> bool) (l : list A) :
  (forall x, p x = true -> q x = false) ->
  Permutation (filter (fun x => p x || q x) l) (filter p l ++ filter q l).
Proof.
  intro Hpq. induction l as [|x l IH]; cbn [filter]; [constructor|].
  destruct (p x) eqn:Hp.
  - rewrite (Hpq x Hp). cbn [orb app]. apply perm_skip. exact IH.
  - cbn [orb]. destruct (q x); [|exact IH].
    apply Permutation_cons_app. exact IH.
Qed.

Lemma filter_all {A : Type} (p : A -> bool) (l : list A) :
  (forall x, In x l -> p x = true) -> filter p l = l.
Proof.
  induction l as [|x l IH]; intro H; cbn [filter]; [reflexivity|].
  rewrite (H x) by (left; reflexivity). f_equal.
  apply IH. intros y Hy. apply H. right. exact Hy.
Qed.

Lemma dropna_app (a b : list cell) : dropna (a ++ b) = dropna a ++ dropna b.
Proof.
  induction a as [|[q|] a IH]; cbn [app dropna]; [reflexivity| |exact IH].
  now rewrite IH.
Qed.

Lemma dropna_concat (ls : list (list cell)) :
  dropna (List.concat ls) = List.concat (map dropna ls).
Proof.
  induction ls as [|l ls IH]; cbn [List.concat map]; [reflexivity|].
  now rewrite dropna_app, IH.
Qed.

Lemma dropna_perm (a b : list cell) :
  Permutation a b -> Permutation (dropna a) (dropna b).
Proof.
  induction 1 as [|x a b H IH|x y a|a b c H1 IH1 H2 IH2].
  - constructor.
  - destruct x; cbn [dropna]; [apply perm_skip|]; exact IH.
  - destruct x, y; cbn [dropna]; try apply Permutation_refl. apply perm_swap.
  - eapply perm_trans; eassumption.
Qed.

(** [same_label] is an equivalence. *)
Lemma same_label_sym (a b : label) : same_label a b = same_label b a.
Proof.
  destruct a as [s|p|], b as [t|q|]; cbn; try reflexivity.
  - apply String.eqb_sym.
  - destruct (Qeq_bool p q) eqn:E, (Qeq_bool q p) eqn:F; try reflexivity.
    + apply Qeq_bool_iff in E. symmetry in E. apply Qeq_bool_iff in E. congruence.
    + apply Qeq_bool_iff in F. symmetry in F. apply Qeq_bool_iff in F. congruence.
Qed.

Lemma same_label_trans (a b c : label) :
  same_label a b = true -> same_label b c = true -> same_label a c = true.
Proof.
  destruct a as [s|p|], b as [t|q|], c as [u|r|]; cbn; try discriminate; try reflexivity.
  - intros H1 H2. apply String.eqb_eq in H1, H2. apply String.eqb_eq. congruence.
  - intros H1 H2. apply Qeq_bool_iff in H1, H2. apply Qeq_bool_iff.
    rewrite H1. exact H2.
Qed.

(** Each value of the column is one of its distinct values, exactly once. *)
Lemma unique_once (l : list label) (x : label) :
  In x l -> List.length (filter (same_label x) (unique l)) = 1%nat.
Proof.
  induction l as [|a l IH]; [easy|]. intro Hin. cbn [unique filter].
  destruct (same_label x a) eqn:E.
  - cbn [List.length]. f_equal. rewrite filter_none; [reflexivity|].
    intros y Hy. apply filter_In in Hy. destruct Hy as [_ Hy].
    apply negb_true_iff in Hy.
    destruct (same_label x y) eqn:Exy; [|reflexivity].
    rewrite same_label_sym in E.
    rewrite (same_label_trans a x y E Exy) in Hy. discriminate.
  - destruct Hin as [->|Hin]; [rewrite same_label_refl in E; discriminate|].
    rewrite filter_absorb; [exact (IH Hin)|].
    intros y Exy. apply negb_true_iff.
    destruct (same_label a y) eqn:Eay; [|reflexivity].
    rewrite (same_label_sym a y) in Eay. rewrite same_label_sym in E.
    rewrite (same_label_sym x y) in Exy.
    rewrite (same_label_trans a y x) in E; [discriminate| |exact Exy].
    rewrite same_label_sym. exact Eay.
Qed.

Lemma unique_never_twice (l : list label) (x : label) :
  (List.length (filter (same_label x) (unique l)) <= 1)%nat.
Proof.
  induction l as [|a l IH]; [cbn; lia|]. cbn [unique filter].
  destruct (same_label x a) eqn:E.
  - cbn [List.length]. rewrite filter_none; [cbn; lia|].
    intros y Hy. apply filter_In in Hy. destruct Hy as [_ Hy].
    apply negb_true_iff in Hy.
    destruct (same_label x y) eqn:Exy; [|reflexivity].
    rewrite same_label_sym in E.
    rewrite (same_label_trans a x y E Exy) in Hy. discriminate.
  - etransitivity; [|exact IH]. clear.
    induction (unique l) as [|y u IHu]; cbn [filter]; [lia|].
    destruct (negb (same_label a y)); cbn [filter];
      destruct (same_label x y); cbn [List.length]; lia.
Qed.

(** The names that line 57 leaves: the values of the column, each once. *)
Lemma names_of_column (claims : list claim) (names : list label) :
  dept_names claims = inr names ->
  (forall d, In d names -> exists r, In r claims /\ Department r = d) /\
  (forall r, In r claims ->
     List.length (filter (same_label (Department r)) names) = 1%nat) /\
  (forall x, (List.length (filter (same_label x) names) <= 1)%nat).
Proof.
  intro H. apply sorted_perm in H. split; [|split].
  - intros d Hd. apply (Permutation_in _ (Permutation_sym H)) in Hd.
    apply unique_subset, in_map_iff in Hd. destruct Hd as [r [E Hr]].
    exists r. split; assumption.
  - intros r Hr. rewrite <- (filter_length_perm _ _ _ H).
    apply unique_once. apply in_map. exact Hr.
  - intro x. rewrite <- (filter_length_perm _ _ _ H). apply unique_never_twice.
Qed.

Lemma of_department_same (d : label) (r : claim) :
  of_department d r = true ->
  same_label d (Department r) = true /\ is_blank d = false.
Proof.
  unfold of_department. destruct (Department r) as [s|p|], d as [t|q|];
    cbn; try discriminate; intro H.
  - split; [|reflexivity]. rewrite String.eqb_sym. exact H.
  - split; [|reflexivity]. apply Qeq_bool_iff. apply Qeq_bool_iff in H.
    symmetry. exact H.
Qed.

Lemma same_of_department (d : label) (r : claim) :
  same_label d (Department r) = true -> is_blank d = false ->
  of_department d r = true.
Proof.
  unfold of_department. destruct (Department r) as [s|p|], d as [t|q|];
    cbn; try discriminate; intros H _.
  - rewrite String.eqb_sym. exact H.
  - apply Qeq_bool_iff. apply Qeq_bool_iff in H. symmetry. exact H.
Qed.

(** The rows of several names, no two of them the same, are the rows of each
    in turn. *)
Lemma rows_by_department (names : list label) (claims : list claim) :
  (forall x, (List.length (filter (same_label x) names) <= 1)%nat) ->
  Permutation (filter (among names) claims)
              (List.concat (map (fun d => filter (of_department d) claims) names)).
Proof.
  induction names as [|d names IH]; intro Honce.
  - cbn. induction claims as [|r claims IHc]; [constructor|exact IHc].
  - cbn [map List.concat].
    eapply perm_trans; [|apply Permutation_app_head; apply IH].
    + apply (filter_split (of_department d) (among names)).
      intros r Hr. apply of_department_same in Hr. destruct Hr as [Hr _].
      unfold among. destruct (existsb (fun d0 => of_department d0 r) names) eqn:E;
        [|reflexivity].
      apply existsb_exists in E. destruct E as [d' [Hin Heq]].
      apply of_department_same in Heq. destruct Heq as [Heq _].
      exfalso. specialize (Honce d). cbn [filter] in Honce.
      rewrite same_label_refl in Honce. cbn [List.length] in Honce.
      assert (Hdd : same_label d d' = true).
      { apply (same_label_trans d (Department r) d'); [exact Hr|].
        rewrite same_label_sym. exact Heq. }
      pose proof (filter_In_length (same_label d) names d' Hin Hdd). lia.
    + intro x. specialize (Honce x). cbn [filter] in Honce.
      destruct (same_label x d); cbn [List.length] in Honce; lia.
Qed.

Lemma of_department_blank (r : claim) : of_department Blank r = false.
Proof. unfold of_department. destruct (Department r); reflexivity. Qed.

Lemma blank_row_in_no_group (d : label) (r : claim) :
  is_blank (Department r) = true -> of_department d r = false.
Proof. unfold of_department. destruct (Department r); [discriminate|discriminate|reflexivity]. Qed.

(** With the names of line 57, a row is in a group iff its department is not
    missing. *)
Lemma among_names (claims : list claim) (names : list label) (r : claim) :
  dept_names claims = inr names -> In r claims ->
  among names r = negb (is_blank (Department r)).
Proof.
  intros H Hr. destruct (names_of_column claims names H) as [_ [Honce _]].
  destruct (is_blank (Department r)) eqn:B; cbn [negb].
  - unfold among. destruct (existsb _ names) eqn:E; [|reflexivity].
    apply existsb_exists in E. destruct E as [d [_ Hd]].
    rewrite (blank_row_in_no_group d r B) in Hd. discriminate.
  - unfold among. apply existsb_exists.
    specialize (Honce r Hr).
    destruct (filter (same_label (Department r)) names) as [|d rest] eqn:F;
      [discriminate|].
    assert (Hd : In d (filter (same_label (Department r)) names))
      by (rewrite F; left; reflexivity).
    apply filter_In in Hd. destruct Hd as [Hin Hsame].
    exists d. split; [exact Hin|].
    rewrite same_label_sym in Hsame. apply same_of_department; [exact Hsame|].
    destruct d, (Department r); cbn in *; congruence.
Qed.

Lemma group_empty_iff_blank (claims : list claim) (names : list label) (d : label) :
  dept_names claims = inr names -> In d names ->
  (map ClaimAmount (filter (of_department d) claims) = [] <-> d = Blank).
Proof.
  intros H Hd. destruct (names_of_column claims names H) as [Hin _].
  destruct (Hin d Hd) as [r [Hr E]]. split.
  - intro Hnil. destruct d as [s|q|]; [exfalso|exfalso|reflexivity].
    + assert (Hf : In r (filter (of_department (Text s)) claims)).
      { apply filter_In. split; [exact Hr|].
        apply same_of_department; [rewrite E; apply same_label_refl|reflexivity]. }
      apply map_eq_nil in Hnil. rewrite Hnil in Hf. exact Hf.
    + assert (Hf : In r (filter (of_department (Number q)) claims)).
      { apply filter_In. split; [exact Hr|].
        apply same_of_department; [rewrite E; apply same_label_refl|reflexivity]. }
      apply map_eq_nil in Hnil. rewrite Hnil in Hf. exact Hf.
  - intros ->. rewrite filter_none; [reflexivity|].
    intros x _. apply of_department_blank.
Qed.

(** X5.  When line 57 has sorted the names, there is one group per name and
    the groups split the amounts of the rows that have a department: each
    such amount is in the group of its department and in no other, and a row
    whose department is missing is in no group.  A group is empty exactly
    when its name is the missing one.  So when no department is missing the
    groups split the whole column, no group is empty and [f_oneway] is never
    given an empty sample; the groups of the box plot, which leave missing
    amounts out, split the present amounts in the same way. *)
Theorem groups_split_amounts (claims : list claim) (names : list label) :
  dept_names claims = inr names ->
  groups claims = inr (by_department names claims) /\
  List.length (by_department names claims) = List.length names /\
  Permutation
    (map ClaimAmount (filter (fun r => negb (is_blank (Department r))) claims))
    (List.concat (by_department names claims)) /\
  (forall d, In d names ->
     (map ClaimAmount (filter (of_department d) claims) = [] <-> d = Blank)) /\
  ((forall r, In r claims -> Department r <> Blank) ->
   Permutation (amounts claims) (List.concat (by_department names claims)) /\
   Permutation (dropna (amounts claims))
               (List.concat (map dropna (by_department names claims))) /\
   Forall (fun g => g <> []) (by_department names claims) /\
   existsb (fun s => (List.length s =? 0)%nat) (by_department names claims) = false).
Proof.
  intro H.
  assert (Hperm : Permutation
            (map ClaimAmount (filter (fun r => negb (is_blank (Department r))) claims))
            (List.concat (by_department names claims))).
  { unfold by_department.
    rewrite <- (map_map (fun d => filter (of_department d) claims) (map ClaimAmount)).
    rewrite <- concat_map. apply Permutation_map.
    rewrite <- (filter_ext_in (among names)).
    - apply rows_by_department. apply (names_of_column claims names H).
    - intros r Hr. apply (among_names claims names r H Hr). }
  split; [unfold groups; rewrite H; reflexivity|].
  split; [apply by_department_length|]. split; [exact Hperm|].
  split; [intros d Hd; apply (group_empty_iff_blank claims names d H Hd)|].
  intro Hall.
  assert (Hwhole : filter (fun r => negb (is_blank (Department r))) claims = claims).
  { apply filter_all. intros r Hr. specialize (Hall r Hr).
    destruct (Department r); [reflexivity|reflexivity|congruence]. }
  rewrite Hwhole in Hperm. fold (amounts claims) in Hperm.
  assert (Hne : Forall (fun g => g <> []) (by_department names claims)).
  { unfold by_department. apply Forall_forall. intros g Hg.
    apply in_map_iff in Hg. destruct Hg as [d [<- Hd]].
    intro Hnil. apply (group_empty_iff_blank claims names d H Hd) in Hnil.
    destruct (names_of_column claims names H) as [Hin _].
    destruct (Hin d Hd) as [r [Hr E]]. apply (Hall r Hr). congruence. }
  split; [exact Hperm|]. split.
  - rewrite <- dropna_concat. apply dropna_perm. exact Hperm.
  - split; [exact Hne|].
    destruct (existsb _ (by_department names claims)) eqn:E; [|reflexivity].
    apply existsb_exists in E. destruct E as [g [Hg Hlen]].
    rewrite Forall_forall in Hne. specialize (Hne g Hg).
    apply Nat.eqb_eq in Hlen. destruct g; [congruence|discriminate].
Qed.

Lemma groups_split_amounts_witness :
  groups two_and_two = inr [[Some 3000; Some 2000]; [Some 1200; Some 800]] /\
  Permutation (amounts two_and_two)
              (List.concat [[Some 3000; Some 2000]; [Some 1200; Some 800]]).
Proof.
  destruct (groups_split_amounts two_and_two [Text "Cardiology"; Text "Oncology"] eq_refl)
    as [Hg [_ [_ [_ Hall]]]].
  split; [exact Hg|]. apply Hall.
  intros r [<-|[<-|[<-|[<-|[]]]]]; discriminate.
Defined.

End DepartmentGroups.

(** ** The script as a whole, further: which files a run touches *)
Section RunFiles.

Import Pipeline.

Lemma execute_prefix (lib : library) (acts : list action)
    (claims : list claim) (revenue : list revenue_row) (fs : files) :
  exists n : nat,
    (n <= List.length acts)%nat /\
    written_paths (execute lib acts claims revenue fs) = firstn n (map target acts) /\
    (exit (execute lib acts claims revenue fs) = Finished <-> n = List.length acts).
Proof.
  revert fs. induction acts as [|a acts IH]; intro fs; cbn [execute].
  - exists 0%nat. cbn. repeat split; auto.
  - destruct (produce a lib claims revenue) as [e|text].
    + exists 0%nat. cbn. split; [lia|]. split; [reflexivity|].
      split; [discriminate|intro H; lia].
    + destruct (IH (write_file (target a) text fs)) as [n [Hn [Hw He]]].
      exists (S n). unfold written_paths in *. cbn [written exit map fst firstn List.length].
      split; [lia|]. split; [now rewrite Hw|].
      rewrite He. split; intro H; lia.
Qed.

Lemma execute_holds_written (lib : library) (acts : list action)
    (claims : list claim) (revenue : list revenue_row) (fs : files) :
  NoDup (map target acts) ->
  forall p text,
    In (p, text) (written (execute lib acts claims revenue fs)) ->
    final (execute lib acts claims revenue fs) p = Some text.
Proof.
  revert fs. induction acts as [|a acts IH]; intros fs Hnd p text; cbn [execute].
  - intros [].
  - destruct (produce a lib claims revenue) as [e|t]; [intros []|].
    cbn [written final]. cbn [map] in Hnd. inversion Hnd as [|x l Hnotin Hnd']; subst.
    intros [H|H].
    + injection H as <- <-.
      rewrite execute_untouched.
      * apply write_file_same.
      * intro Hin. apply Hnotin. apply (execute_paths _ _ _ _ _ _ Hin).
    + apply (IH _ Hnd' p text H).
Qed.

Lemma targets_distinct : NoDup (map target program).
Proof.
  cbn. repeat (constructor;
    [cbn; intro H; repeat (destruct H as [H|H]; [discriminate H|]); exact H|]).
  constructor.
Qed.

Lemma targets_under_outputs_or_figures :
  Forall (fun p => under "outputs/" p \/ under "figures/" p) (map target program).
Proof. cbn. repeat constructor; (left; reflexivity) || (right; reflexivity). Qed.

(** X7.  A run writes under outputs/ and figures/ only, leaves every other
    file as it found it, the two input files among them, and each file it
    wrote holds the text written to it: no write of a run replaces an earlier
    one. *)
Theorem run_touches_only_its_outputs (lib : library) (fs : files) :
  (forall p, In p (written_paths (run lib fs)) ->
             under "outputs/" p \/ under "figures/" p) /\
  (forall p, ~ In p (written_paths (run lib fs)) -> final (run lib fs) p = fs p) /\
  final (run lib fs) claims_csv = fs claims_csv /\
  final (run lib fs) revenue_csv = fs revenue_csv /\
  (forall p text, In (p, text) (written (run lib fs)) ->
                  final (run lib fs) p = Some text).
Proof.
  destruct inputs_are_not_targets as [Nc Nr].
  split; [|split; [|split; [|split]]].
  - intros p Hp. apply run_paths in Hp.
    pose proof targets_under_outputs_or_figures as H.
    rewrite Forall_forall in H. apply H. exact Hp.
  - intros p Hp. revert Hp. unfold run.
    destruct (load (read_csv_claims lib) claims_csv fs) as [e|claims]; [reflexivity|].
    destruct (load (read_csv_revenue lib) revenue_csv fs) as [e|revenue]; [reflexivity|].
    apply execute_untouched.
  - apply run_untouched. exact Nc.
  - apply run_untouched. exact Nr.
  - intros p text. unfold run.
    destruct (load (read_csv_claims lib) claims_csv fs) as [e|claims]; [intros []|].
    destruct (load (read_csv_revenue lib) revenue_csv fs) as [e|revenue]; [intros []|].
    apply execute_holds_written. exact targets_distinct.
Qed.

(** X8.  The files a run wrote are the first so many of the sixteen outputs
    in program order; the run finishes exactly when it wrote all sixteen, and
    it writes none when an input file is missing. *)
Theorem run_writes_a_prefix (lib : library) (fs : files) :
  (exists n : nat,
     (n <= 16)%nat /\
     written_paths (run lib fs) = firstn n (map target program) /\
     (exit (run lib fs) = Finished <-> n = 16%nat)) /\
  (fs claims_csv = None \/ fs revenue_csv = None ->
   written (run lib fs) = [] /\ exit (run lib fs) <> Finished).
Proof.
  split.
  - unfold run.
    destruct (load (read_csv_claims lib) claims_csv fs) as [e|claims];
      [exists 0%nat; cbn; repeat split; try lia; discriminate|].
    destruct (load (read_csv_revenue lib) revenue_csv fs) as [e|revenue];
      [exists 0%nat; cbn; repeat split; try lia; discriminate|].
    apply (execute_prefix lib program claims revenue fs).
  - unfold run, load. intros [H|H]; rewrite H.
    + split; [reflexivity|discriminate].
    + destruct (fs claims_csv) as [t|]; [|split; [reflexivity|discriminate]].
      destruct (read_csv_claims lib t); split; try reflexivity; discriminate.
Qed.

Lemma run_writes_a_prefix_witness :
  written (run (quiet_library Tests.two_and_two []) (fun _ => None)) = [] /\
  exit (run (quiet_library Tests.two_and_two []) (fun _ => None)) <> Finished.
Proof.
  apply (proj2 (run_writes_a_prefix (quiet_library Tests.two_and_two []) (fun _ => None))).
  left. reflexivity.
Defined.

End RunFiles.

(** ** Step 5, further: rows with a missing cell *)
Section AssociationMissingCells.

Import Association.
Open Scope Q_scope.

Lemma column_cells (f : field) (claims : list claim) :
  column f claims = map (cell_at f) claims.
Proof. destruct f; reflexivity. Qed.

Lemma complete_pairs_app (xs ys xs' ys' : list cell) :
  List.length xs = List.length ys ->
  complete_pairs (xs ++ xs') (ys ++ ys')
  = (complete_pairs xs ys ++ complete_pairs xs' ys')%list.
Proof.
  revert ys. induction xs as [|x xs IH]; intros [|y ys] Hlen; try discriminate.
  - reflexivity.
  - cbn in Hlen. injection Hlen as Hlen. cbn [app complete_pairs].
    rewrite (IH ys Hlen). destruct x, y; reflexivity.
Qed.

Lemma complete_pairs_skip (x y : cell) (xs ys : list cell) :
  x = None \/ y = None ->
  complete_pairs (x :: xs) (y :: ys) = complete_pairs xs ys.
Proof. intros [-> | ->]; [reflexivity | destruct x; reflexivity]. Qed.

Lemma pairs_without_row (f g : field) (before after : list claim) (r : claim) :
  cell_at f r = None \/ cell_at g r = None ->
  complete_pairs (column f (before ++ r :: after)) (column g (before ++ r :: after))
  = complete_pairs (column f (before ++ after)) (column g (before ++ after)).
Proof.
  intro H. rewrite !column_cells, !map_app. cbn [map].
  rewrite !complete_pairs_app by (now rewrite !length_map).
  now rewrite complete_pairs_skip.
Qed.

(** X10.  Missing cells are deleted pairwise: a row that lacks one of the two
    fields of an entry changes neither that correlation nor that
    covariance. *)
Theorem row_missing_a_field_is_left_out
    (before after : list claim) (r : claim) (f g : field) :
  cell_at f r = None \/ cell_at g r = None ->
  corr (before ++ r :: after) f g = corr (before ++ after) f g /\
  cov (before ++ r :: after) f g = cov (before ++ after) f g.
Proof.
  intro H.
  assert (Hfg := pairs_without_row f g before after r H).
  assert (Hgf := pairs_without_row g f before after r (proj1 (or_comm _ _) H)).
  unfold corr, cov, entry, corr_pair, cov_pair, pair_moments.
  destruct (position g <=? position f)%nat; rewrite ?Hfg, ?Hgf; split; reflexivity.
Qed.

Lemma row_missing_a_field_is_left_out_witness :
  corr (never_denied ++ ageless :: single_claim) FAge FClaimAmount
  = corr (never_denied ++ single_claim) FAge FClaimAmount /\
  cov (never_denied ++ ageless :: single_claim) FAge FClaimAmount
  = cov (never_denied ++ single_claim) FAge FClaimAmount.
Proof.
  apply (row_missing_a_field_is_left_out never_denied single_claim ageless
           FAge FClaimAmount).
  left. reflexivity.
Defined.

End AssociationMissingCells.

(** ** Step 6c, further: the contingency table of the claims *)
Section ContingencyTable.

Import Tests.
Open Scope Z_scope.

Lemma Zsum_map_plus {A : Type} (a b : A -> Z) (l : list A) :
  Zsum (map (fun y => a y + b y) l) = Zsum (map a l) + Zsum (map b l).
Proof. induction l as [|y l IH]; unfold Zsum in *; cbn; [reflexivity|]. rewrite IH. lia. Qed.

Lemma Zsum_indicator {A : Type} (f : A -> bool) (l : list A) :
  Zsum (map (fun y => if f y then 1 else 0) l) = Z.of_nat (List.length (filter f l)).
Proof.
  induction l as [|y l IH]; unfold Zsum in *; cbn [map fold_right filter]; [reflexivity|].
  rewrite IH. destruct (f y); cbn [List.length]; lia.
Qed.

(** Counting the pairs of a relation by rows or by columns gives the same
    total. *)
Lemma count_swap {A B : Type} (g : A -> B -> bool) (rows : list A) (L : list B) :
  Zsum (map (fun y => Z.of_nat (List.length (filter (fun p => g p y) rows))) L)
  = Zsum (map (fun p => Z.of_nat (List.length (filter (g p) L))) rows).
Proof.
  induction rows as [|p rows IH].
  - cbn. induction L as [|y L IH]; unfold Zsum in *; cbn; [reflexivity|]. rewrite IH. lia.
  - cbn [map]. change (Zsum (?x :: ?l)) with (x + Zsum l). rewrite <- IH.
    rewrite <- Zsum_indicator, <- Zsum_map_plus. f_equal. apply map_ext. intro y.
    cbn [filter]. destruct (g p y); cbn [List.length]; lia.
Qed.

Lemma uniqueQ_in (l : list Q) (y : Q) : In y (uniqueQ l) -> In y l.
Proof.
  induction l as [|a l IH]; [easy|]. cbn [uniqueQ]. intros [->|H]; [now left|].
  right. apply IH. apply filter_In in H. tauto.
Qed.

(** Each value of the column equals exactly one of its distinct values. *)
Lemma uniqueQ_once (l : list Q) (x : Q) :
  In x l -> List.length (filter (Qeq_bool x) (uniqueQ l)) = 1%nat.
Proof.
  induction l as [|a l IH]; [easy|]. intro Hin. cbn [uniqueQ filter].
  destruct (Qeq_bool x a) eqn:E.
  - cbn [List.length]. f_equal. rewrite filter_none; [reflexivity|].
    intros y Hy. apply filter_In in Hy. destruct Hy as [_ Hy].
    destruct (Qeq_bool x y) eqn:Exy; [|reflexivity].
    apply Qeq_bool_iff in E, Exy. apply negb_true_iff in Hy.
    assert (Hay : Qeq_bool a y = true).
    { apply Qeq_bool_iff. rewrite <- E. exact Exy. }
    congruence.
  - destruct Hin as [->|Hin].
    { rewrite (proj2 (Qeq_bool_iff x x) (Qeq_refl x)) in E. discriminate. }
    rewrite filter_absorb; [exact (IH Hin)|].
    intros y Exy. apply negb_true_iff. destruct (Qeq_bool a y) eqn:Eay; [|reflexivity].
    apply Qeq_bool_iff in Exy, Eay.
    assert (Hxa : Qeq_bool x a = true).
    { apply Qeq_bool_iff. rewrite Exy. symmetry. exact Eay. }
    congruence.
Qed.

Lemma insertQ_perm (x : Q) (l : list Q) : Permutation (insertQ x l) (x :: l).
Proof.
  induction l as [|y l IH]; cbn [insertQ]; [reflexivity|].
  destruct (Qle_bool x y); [reflexivity|].
  rewrite IH. apply perm_swap.
Qed.

Lemma levels_perm (l : list Q) : Permutation (levels l) (uniqueQ l).
Proof.
  unfold levels. induction (uniqueQ l) as [|y u IH]; cbn [fold_right]; [reflexivity|].
  rewrite insertQ_perm. now constructor.
Qed.

Lemma levels_once (l : list Q) (x : Q) :
  In x l -> List.length (filter (Qeq_bool x) (levels l)) = 1%nat.
Proof.
  intro H. rewrite (filter_length_perm _ _ _ (levels_perm l)). now apply uniqueQ_once.
Qed.

Lemma levels_in (l : list Q) (y : Q) : In y (levels l) -> In y l.
Proof.
  intro H. apply uniqueQ_in. apply (Permutation_in _ (levels_perm l)). exact H.
Qed.

Lemma levels_nil (l : list Q) : levels l = [] -> l = [].
Proof.
  intro H. pose proof (Permutation_length (levels_perm l)) as Hlen. rewrite H in Hlen.
  destruct l; [reflexivity|discriminate].
Qed.

(** Summing the counts of one axis over its levels. *)
Lemma marginal {A : Type} (k : A -> Q) (f : A -> bool) (rows : list A) :
  Zsum (map (fun y => Z.of_nat (List.length
                (filter (fun p => f p && Qeq_bool (k p) y) rows)))
            (levels (map k rows)))
  = Z.of_nat (List.length (filter f rows)).
Proof.
  rewrite (count_swap (fun p y => f p && Qeq_bool (k p) y)).
  rewrite <- Zsum_indicator. f_equal. apply map_ext_in. intros p Hp.
  destruct (f p); cbn [andb].
  - rewrite levels_once; [reflexivity|]. now apply in_map.
  - rewrite filter_none; [reflexivity|]. reflexivity.
Qed.

Lemma row_total_of (rows : list (Q * Q)) (d : Q) :
  Zsum (map (fun s => Z.of_nat (List.length
               (filter (fun p => Qeq_bool (fst p) d && Qeq_bool (snd p) s) rows)))
            (levels (map snd rows)))
  = Z.of_nat (List.length (filter (fun p => Qeq_bool (fst p) d) rows)).
Proof. exact (marginal snd (fun p => Qeq_bool (fst p) d) rows). Qed.

Lemma col_total_of (rows : list (Q * Q)) (s : Q) :
  Zsum (map (fun d => Z.of_nat (List.length
               (filter (fun p => Qeq_bool (fst p) d && Qeq_bool (snd p) s) rows)))
            (levels (map fst rows)))
  = Z.of_nat (List.length (filter (fun p => Qeq_bool (snd p) s) rows)).
Proof.
  rewrite <- (marginal fst (fun p => Qeq_bool (snd p) s) rows).
  f_equal. apply map_ext. intro d. do 2 f_equal. apply filter_ext. intro p.
  apply andb_comm.
Qed.

Lemma level_occurs {A : Type} (k : A -> Q) (rows : list A) (y : Q) :
  In y (levels (map k rows)) ->
  0 < Z.of_nat (List.length (filter (fun p => Qeq_bool (k p) y) rows)).
Proof.
  intro H. apply levels_in, in_map_iff in H. destruct H as [p [<- Hp]].
  apply (inj_lt 0). apply (filter_In_length _ _ p Hp).
  apply Qeq_bool_iff. reflexivity.
Qed.

Lemma row_totals_cont (claims : list claim) :
  row_totals (cont claims)
  = map (fun d => Z.of_nat (List.length
                    (filter (fun p => Qeq_bool (fst p) d) (crossed claims))))
        (levels (map fst (crossed claims))).
Proof.
  unfold row_totals, cont. rewrite map_map. apply map_ext. intro d.
  apply row_total_of.
Qed.

Lemma grand_total_cont (claims : list claim) :
  grand_total (cont claims) = Z.of_nat (List.length (crossed claims)).
Proof.
  unfold grand_total. rewrite row_totals_cont.
  transitivity (Z.of_nat (List.length (filter (fun _ => true) (crossed claims)))).
  - rewrite <- (marginal fst (fun _ => true) (crossed claims)). reflexivity.
  - f_equal. induction (crossed claims) as [|p l IH]; cbn; congruence.
Qed.

Lemma map_nth_seq {A B : Type} (F : A -> B) (l : list A) (a : A) :
  map (fun j => F (nth j l a)) (seq 0 (List.length l)) = map F l.
Proof.
  induction l as [|x l IH]; [reflexivity|].
  cbn [List.length seq map nth]. f_equal.
  rewrite <- seq_shift, map_map. exact IH.
Qed.

Lemma ncols_cont (claims : list claim) :
  crossed claims <> [] ->
  ncols (cont claims) = List.length (levels (map snd (crossed claims))) /\
  nrows (cont claims) = List.length (levels (map fst (crossed claims))) /\
  levels (map fst (crossed claims)) <> [] /\
  levels (map snd (crossed claims)) <> [].
Proof.
  intro Hne.
  assert (Hd : levels (map fst (crossed claims)) <> []).
  { intro H. apply levels_nil, map_eq_nil in H. contradiction. }
  assert (Hs : levels (map snd (crossed claims)) <> []).
  { intro H. apply levels_nil, map_eq_nil in H. contradiction. }
  repeat split; try assumption.
  - unfold ncols, cont. destruct (levels (map fst (crossed claims))); [contradiction|].
    cbn [map hd]. apply length_map.
  - unfold nrows, cont. apply length_map.
Qed.

Lemma col_totals_cont (claims : list claim) :
  crossed claims <> [] ->
  col_totals (cont claims)
  = map (fun s => Z.of_nat (List.length
                    (filter (fun p => Qeq_bool (snd p) s) (crossed claims))))
        (levels (map snd (crossed claims))).
Proof.
  intro Hne. destruct (ncols_cont claims Hne) as [Hc _].
  unfold col_totals. rewrite Hc.
  rewrite <- (map_nth_seq _ (levels (map snd (crossed claims))) 0%Q).
  apply map_ext_in. intros j Hj. apply in_seq in Hj.
  rewrite <- col_total_of. unfold cont. rewrite map_map. f_equal.
  apply map_ext. intro d.
  rewrite (nth_indep _ 0
             (Z.of_nat (List.length
                (filter (fun p => Qeq_bool (fst p) d && Qeq_bool (snd p) 0%Q)
                        (crossed claims)))))
    by (rewrite length_map; lia).
  apply (map_nth (fun s => Z.of_nat (List.length
                    (filter (fun p => Qeq_bool (fst p) d && Qeq_bool (snd p) s)
                            (crossed claims))))).
Qed.

Lemma cont_not_negative (claims : list claim) :
  existsb (existsb (fun o => o <? 0)) (cont claims) = false.
Proof.
  destruct (existsb _ (cont claims)) eqn:E; [|reflexivity]. exfalso.
  apply existsb_exists in E. destruct E as [row [Hrow E]].
  apply existsb_exists in E. destruct E as [o [Ho E]].
  unfold cont in Hrow. apply in_map_iff in Hrow. destruct Hrow as [d [<- _]].
  apply in_map_iff in Ho. destruct Ho as [s [<- _]].
  apply Z.ltb_lt in E. lia.
Qed.

Lemma cont_expected_positive (claims : list claim) :
  crossed claims <> [] ->
  Forall (Forall (fun e => (0 < e)%Q)) (expected_freq (cont claims)).
Proof.
  intro Hne. unfold expected_freq.
  rewrite row_totals_cont, (col_totals_cont claims Hne), grand_total_cont.
  apply Forall_forall. intros row Hrow.
  apply in_map_iff in Hrow. destruct Hrow as [rt [<- Hrt]].
  apply Forall_forall. intros e He.
  apply in_map_iff in He. destruct He as [ct [<- Hct]].
  apply in_map_iff in Hrt. destruct Hrt as [d [<- Hd]].
  apply in_map_iff in Hct. destruct Hct as [s [<- Hs]].
  pose proof (level_occurs fst _ d Hd) as H1.
  pose proof (level_occurs snd _ s Hs) as H2.
  assert (H3 : 0 < Z.of_nat (List.length (crossed claims))).
  { destruct (crossed claims); [contradiction|]. cbn [List.length]. lia. }
  apply Qlt_shift_div_l.
  - change 0%Q with (inject_Z 0). rewrite <- Zlt_Qlt. exact H3.
  - rewrite Qmult_0_l. apply Qmult_lt_0_compat;
      change 0%Q with (inject_Z 0); rewrite <- Zlt_Qlt; assumption.
Qed.

Lemma positive_not_zero (expected : list (list Q)) :
  Forall (Forall (fun e => (0 < e)%Q)) expected ->
  existsb (existsb (fun e => Qeq_bool e 0)) expected = false.
Proof.
  intro H. destruct (existsb _ expected) eqn:E; [|reflexivity]. exfalso.
  apply existsb_exists in E. destruct E as [row [Hrow E]].
  apply existsb_exists in E. destruct E as [e [He E]].
  rewrite Forall_forall in H. specialize (H row Hrow).
  rewrite Forall_forall in H. specialize (H e He).
  apply Qeq_bool_iff in E. rewrite E in H. revert H. apply Qlt_irrefl.
Qed.

(** X11.  The contingency table counts every row with both flags present
    exactly once.  The chi-square step raises only when there is no such row,
    and then with the error of an empty table; otherwise it returns a finite
    statistic that is not negative, with (rows - 1) * (columns - 1) degrees
    of freedom over the distinct values of the two flags, positive expected
    counts, and statistic 0 with p-value 1 when a flag takes one value
    only. *)
Theorem chi_square_fails_only_without_rows (claims : list claim) :
  grand_total (cont claims) = Z.of_nat (List.length (crossed claims)) /\
  (crossed claims = [] ->
   chi_square claims = inl (ValueError "No data; `observed` has size 0.")) /\
  (crossed claims <> [] ->
   exists (res : chi2_result) (x : Q),
     chi_square claims = inr res /\
     chi2 res = Finite x /\ (0 <= x)%Q /\
     dof res = (Z.of_nat (List.length (levels (map fst (crossed claims)))) - 1)
               * (Z.of_nat (List.length (levels (map snd (crossed claims)))) - 1) /\
     (dof res = 0 -> x = 0%Q /\ p_chi res = p_exactly 1%R) /\
     Forall (Forall (fun e => (0 < e)%Q)) (exp res)).
Proof.
  split; [apply grand_total_cont|]. split.
  - intro Hnil. unfold chi_square, chi2_contingency, cont. rewrite Hnil. reflexivity.
  - intro Hne.
    destruct (ncols_cont claims Hne) as [Hc [Hr [Hd Hs]]].
    pose proof (cont_expected_positive claims Hne) as Hexp.
    assert (Hdf : degrees_of_freedom (cont claims)
                  = (Z.of_nat (List.length (levels (map fst (crossed claims)))) - 1)
                    * (Z.of_nat (List.length (levels (map snd (crossed claims)))) - 1)).
    { rewrite degrees_of_freedom_product, Hc, Hr. reflexivity. }
    assert (Hsize : (nrows (cont claims) * ncols (cont claims) =? 0)%nat = false).
    { apply Nat.eqb_neq. rewrite Hc, Hr.
      destruct (levels (map fst (crossed claims))); [contradiction|].
      destruct (levels (map snd (crossed claims))); [contradiction|].
      cbn [List.length]. lia. }
    assert (Htotal : (grand_total (cont claims) =? 0) = false).
    { apply Z.eqb_neq. rewrite grand_total_cont.
      destruct (crossed claims); [contradiction|]. cbn [List.length]. lia. }
    unfold chi_square, chi2_contingency.
    rewrite cont_not_negative, Hsize, Htotal, (positive_not_zero _ Hexp).
    cbv zeta. destruct (degrees_of_freedom (cont claims) =? 0) eqn:Ez.
    + eexists. exists 0%Q. split; [reflexivity|]. cbn [chi2 dof p_chi exp].
      repeat split; try assumption. apply Qle_refl.
    + eexists. eexists. split; [reflexivity|]. cbn [chi2 dof p_chi exp].
      split; [reflexivity|]. split.
      * apply pearson_nonneg. intros e He. apply in_concat in He.
        destruct He as [row [Hrow He]].
        rewrite Forall_forall in Hexp. specialize (Hexp row Hrow).
        rewrite Forall_forall in Hexp. exact (Hexp e He).
      * split; [exact Hdf|]. split; [|exact Hexp].
        intro H0. apply Z.eqb_neq in Ez. contradiction.
Qed.

End ContingencyTable.

(** ** Step 6, further: a missing amount in the tests *)
Section MissingAmountInTests.

Import Tests.

Lemma missing_in_sample (keep : claim -> bool) (claims : list claim) (r : claim) :
  In r claims -> keep r = true -> ClaimAmount r = None ->
  existsb is_missing (map ClaimAmount (filter keep claims)) = true.
Proof.
  intros Hr Hk Hnone. apply existsb_exists. exists None. split; [|reflexivity].
  rewrite <- Hnone. apply in_map. apply filter_In. split; assumption.
Qed.

Lemma ttest_ind_missing (a b : list cell) :
  existsb is_missing a || existsb is_missing b = true ->
  ttest_ind a b = (NaN, p_nan).
Proof.
  intro H. unfold ttest_ind. destruct a as [|x a]; [reflexivity|].
  destruct b as [|y b]; [reflexivity|]. rewrite H. reflexivity.
Qed.

(** X12.  The two tests on the amounts do not drop missing values.  One claim
    without an amount, with smoker flag 0 or 1, makes the Welch statistic and
    its p-value NaN; with two departments or more it makes the F statistic and
    its p-value NaN as well. *)
Theorem missing_amount_makes_tests_nan (claims : list claim) (r : claim) :
  In r claims -> ClaimAmount r = None ->
  (cell_eq 1 (IsSmoker r) = true \/ cell_eq 0 (IsSmoker r) = true ->
   t_stat claims = NaN /\ p_val claims = p_nan) /\
  (forall names : list label,
     dept_names claims = inr names ->
     (2 <= List.length names)%nat ->
     anova claims = inr (NaN, p_nan)).
Proof.
  intros Hr Hnone. split.
  - intro Hflag. unfold t_stat, p_val. rewrite ttest_ind_missing; [split; reflexivity|].
    apply orb_true_iff. unfold sm, ns.
    destruct Hflag as [H1|H0]; [left|right];
      apply (missing_in_sample _ claims r Hr); assumption.
  - intros names Hnames Htwo. unfold anova, groups. rewrite Hnames. cbn [bind].
    unfold f_oneway.
    assert (Hlen : (List.length (by_department names claims) <? 2)%nat = false).
    { apply Nat.ltb_ge. rewrite by_department_length. exact Htwo. }
    rewrite Hlen.
    destruct (existsb (fun s => (List.length s =? 0)%nat) (by_department names claims))
      eqn:Hempty; [reflexivity|].
    destruct (forallb _ (by_department names claims)); [reflexivity|].
    assert (Hmiss : existsb (existsb is_missing) (by_department names claims) = true).
    { assert (Hb : is_blank (Department r) = false).
      { destruct (is_blank (Department r)) eqn:B; [|reflexivity]. exfalso.
        assert (E : Department r = Blank)
          by (revert B; destruct (Department r); intro B; [discriminate B|discriminate B|reflexivity]).
        destruct (names_of_column claims names Hnames) as [_ [Honce _]].
        specialize (Honce r Hr). rewrite E in Honce.
        destruct (filter (same_label Blank) names) as [|d rest] eqn:F; [discriminate|].
        assert (Hd : In d (filter (same_label Blank) names))
          by (rewrite F; left; reflexivity).
        apply filter_In in Hd. destruct Hd as [Hin Hsame].
        assert (d = Blank) by (destruct d; cbn in Hsame; congruence). subst d.
        assert (Ht : existsb (fun s => (List.length s =? 0)%nat)
                             (by_department names claims) = true).
        { apply existsb_exists.
          exists (map ClaimAmount (filter (of_department Blank) claims)). split.
          - unfold by_department.
            apply (in_map (fun d => map ClaimAmount (filter (of_department d) claims))).
            exact Hin.
          - rewrite filter_none; [reflexivity|]. intros x _. apply of_department_blank. }
        congruence. }
      pose proof (among_names claims names r Hnames Hr) as Ha.
      rewrite Hb in Ha. cbn [negb] in Ha. unfold among in Ha.
      apply existsb_exists in Ha. destruct Ha as [d [Hin Hd]].
      apply existsb_exists.
      exists (map ClaimAmount (filter (of_department d) claims)). split.
      - unfold by_department.
        apply (in_map (fun d0 => map ClaimAmount (filter (of_department d0) claims))).
        exact Hin.
      - apply (missing_in_sample _ claims r Hr); assumption. }
    rewrite Hmiss. reflexivity.
Qed.

Lemma missing_amount_makes_tests_nan_witness :
  t_stat (unbilled :: two_and_two) = NaN /\
  p_val (unbilled :: two_and_two) = p_nan /\
  anova (unbilled :: two_and_two) = inr (NaN, p_nan).
Proof.
  destruct (missing_amount_makes_tests_nan (unbilled :: two_and_two) unbilled)
    as [Ht Ha]; [left; reflexivity|reflexivity|].
  destruct Ht as [Ht Hp]; [left; reflexivity|].
  split; [exact Ht|]. split; [exact Hp|].
  apply (Ha [Text "Cardiology"; Text "Oncology"]); [reflexivity|].
  cbn. apply le_n.
Defined.

End MissingAmountInTests.

